(** * mbd-vv: the calculation script [calc.py]

    A shallow embedding of the pure parts of [calc.py]: the force-occupation
    enumerator [get_force_occs], the crystal builder [get_crystal] and the two
    output scanners [get_energy] and [get_volumes], together with the
    properties stated about them.

    Python values are modelled as follows.  Integers are [Z]; strings are
    [string]; lists and tuples are [list]s and products; a [dict] with string
    keys is an association list in insertion order; a raised exception is an
    [Err] carrying the exception class. *)

From Stdlib Require Import ZArith List String Ascii Bool Lia Sorted FinFun.
From Stdlib Require Import DecimalString DecimalPos DecimalZ.
From Stdlib Require PrimFloat Uint63.
Import ListNotations.

Local Open Scope string_scope.
Local Open Scope list_scope.
Local Open Scope Z_scope.

(** ** Exceptions and results *)

(** The exception classes the modelled code can raise. *)
Inductive exn : Type :=
| IndexError
| ValueError
| AssertionError
| UnboundLocalError
| StopIteration
| ZeroDivisionError.

(** The name of an exception class, as Python prints it. *)
Definition exn_name (e : exn) : string :=
  match e with
  | IndexError => "IndexError"
  | ValueError => "ValueError"
  | AssertionError => "AssertionError"
  | UnboundLocalError => "UnboundLocalError"
  | StopIteration => "StopIteration"
  | ZeroDivisionError => "ZeroDivisionError"
  end.

Inductive result (A : Type) : Type :=
| Ok (a : A)
| Err (e : exn).

Arguments Ok {A} a.
Arguments Err {A} e.

Definition bind {A B : Type} (r : result A) (k : A -> result B) : result B :=
  match r with
  | Ok a => k a
  | Err e => Err e
  end.

Notation "x <- r ;; k" := (bind r (fun x => k))
  (at level 61, r at next level, right associativity).
Notation "' p <- r ;; k" := (bind r (fun x => let p := x in k))
  (at level 61, p pattern, r at next level, right associativity).

(** A list comprehension whose element expression may raise: elements are
    evaluated left to right and the first exception escapes. *)
Fixpoint mapM {A B : Type} (f : A -> result B) (l : list A) : result (list B) :=
  match l with
  | [] => Ok []
  | x :: l' => y <- f x ;; ys <- mapM f l' ;; Ok (y :: ys)
  end.

(** ** The Python built-ins the script uses *)

Module Py.

(** [str.isspace] on the ASCII range: tab, line feed, vertical tab, form
    feed, carriage return, the four separators 0x1c-0x1f and the space. *)
Definition is_space (c : ascii) : bool :=
  let k := nat_of_ascii c in
  ((9 <=? k) && (k <=? 13) || (28 <=? k) && (k <=? 32))%nat.

Fixpoint lstrip (cs : list ascii) : list ascii :=
  match cs with
  | [] => []
  | c :: cs' => if is_space c then lstrip cs' else cs
  end.

(** [s.strip()] on the characters of [s]. *)
Definition strip (cs : list ascii) : list ascii :=
  rev (lstrip (rev (lstrip cs))).

Definition digit_val (c : ascii) : option Z :=
  let k := nat_of_ascii c in
  if ((48 <=? k) && (k <=? 57))%nat then Some (Z.of_nat k - 48) else None.

(** The digit part of a decimal literal: digits, with single underscores
    allowed between two digits. *)
Fixpoint int_digits (acc : Z) (after_digit : bool) (cs : list ascii)
  : option Z :=
  match cs with
  | [] => if after_digit then Some acc else None
  | c :: cs' =>
      match digit_val c with
      | Some d => int_digits (10 * acc + d) true cs'
      | None =>
          if Ascii.eqb c "_" && after_digit then int_digits acc false cs'
          else None
      end
  end.

(** [int(s)] for a string [s] in base ten: surrounding whitespace is
    dropped, one sign is accepted, anything else raises [ValueError]. *)
Definition int (s : string) : result Z :=
  let parsed :=
    match strip (list_ascii_of_string s) with
    | "+"%char :: cs => int_digits 0 false cs
    | "-"%char :: cs => option_map Z.opp (int_digits 0 false cs)
    | cs => int_digits 0 false cs
    end in
  match parsed with
  | Some z => Ok z
  | None => Err ValueError
  end.

(** [str(z)] for an integer [z]. *)
Definition str (z : Z) : string := NilZero.string_of_int (Z.to_int z).

(** [s[i]] for a non-negative index. *)
Definition getitem (s : string) (i : nat) : result ascii :=
  match String.get i s with
  | Some c => Ok c
  | None => Err IndexError
  end.

(** [s[i:]] for a non-negative index. *)
Fixpoint slice_from (i : nat) (s : string) : string :=
  match i, s with
  | O, _ => s
  | S i', EmptyString => EmptyString
  | S i', String _ s' => slice_from i' s'
  end.

(** [pat in s] for strings. *)
Fixpoint contains (pat s : string) : bool :=
  String.prefix pat s ||
  match s with
  | EmptyString => false
  | String _ s' => contains pat s'
  end.

(** [s.split()]: the maximal runs of non-whitespace characters.  [cur]
    holds the current run, last character first. *)
Fixpoint split_from (cur : list ascii) (cs : list ascii) : list string :=
  match cs with
  | [] =>
      match cur with
      | [] => []
      | _ => [string_of_list_ascii (rev cur)]
      end
  | c :: cs' =>
      if is_space c then
        match cur with
        | [] => split_from [] cs'
        | _ => string_of_list_ascii (rev cur) :: split_from [] cs'
        end
      else split_from (c :: cur) cs'
  end.

Definition split (s : string) : list string :=
  split_from [] (list_ascii_of_string s).

(** [l[i]] for a non-negative index into a list. *)
Definition index {A : Type} (l : list A) (i : nat) : result A :=
  match nth_error l i with
  | Some x => Ok x
  | None => Err IndexError
  end.

(** [l[-1]]. *)
Definition last {A : Type} (l : list A) : result A :=
  match rev l with
  | x :: _ => Ok x
  | [] => Err IndexError
  end.

(** [range(a, b)]. *)
Definition range (a b : Z) : list Z :=
  map (fun i => a + Z.of_nat i) (seq 0 (Z.to_nat (b - a))).

(** [sep.join(l)]. *)
Fixpoint join (sep : string) (l : list string) : string :=
  match l with
  | [] => ""
  | [s] => s
  | s :: l' => (s ++ sep ++ join sep l')%string
  end.

(** The [r]-element subsequences of [l], in the order
    [itertools.combinations] emits them. *)
Fixpoint subsequences {A : Type} (l : list A) (r : nat) : list (list A) :=
  match r, l with
  | O, _ => [[]]
  | S _, [] => []
  | S r', x :: l' =>
      map (cons x) (subsequences l' r') ++ subsequences l' r
  end.

(** [itertools.combinations(l, r)]: a negative [r] raises [ValueError]. *)
Definition combinations {A : Type} (l : list A) (r : Z)
  : result (list (list A)) :=
  if r <? 0 then Err ValueError else Ok (subsequences l (Z.to_nat r)).

(** [enumerate(l)]. *)
Definition enumerate {A : Type} (l : list A) : list (nat * A) :=
  combine (seq 0 (List.length l)) l.

(** A [dict] with string keys: an association list in insertion order. *)
Definition dict (V : Type) : Type := list (string * V).

(** [d[k] = v]: an existing key keeps its place and takes the new value, a
    new key goes last. *)
Fixpoint setitem {V : Type} (d : dict V) (k : string) (v : V) : dict V :=
  match d with
  | [] => [(k, v)]
  | (k', v') :: d' =>
      if String.eqb k' k then (k', v) :: d'
      else (k', v') :: setitem d' k v
  end.

End Py.

(** ** [get_force_occs] *)

(** A parsed shell [(n, l, occ)]. *)
Definition shell : Type := Z * Z * Z.

(** A spin sub-shell [(n, l, spin, occ)]. *)
Definition spin_shell : Type := Z * Z * Z * Z.

(** The eight-field tuple of a [force_occupation_basis] line. *)
Record force_occ : Type := ForceOcc {
  fo_kind : Z;
  fo_spin : Z;
  fo_frame : string;
  fo_n : Z;
  fo_l : Z;
  fo_m : Z;
  fo_occ : Z;
  fo_denom : Z
}.

(** [orb.index(c)] for [orb = 'spdf']. *)
Definition orb_index (c : ascii) : result Z :=
  match c with
  | "s"%char => Ok 0
  | "p"%char => Ok 1
  | "d"%char => Ok 2
  | "f"%char => Ok 3
  | _ => Err ValueError
  end.

(** [(int(shell[0]), orb.index(shell[1]), int(shell[2:] or 1))]. *)
Definition parse_shell (tok : string) : result shell :=
  c0 <- Py.getitem tok 0 ;;
  n <- Py.int (String c0 "") ;;
  c1 <- Py.getitem tok 1 ;;
  l <- orb_index c1 ;;
  occ <- match Py.slice_from 2 tok with
         | EmptyString => Ok 1
         | rest => Py.int rest
         end ;;
  Ok (n, l, occ).

Definition parse_conf (conf : list string) : result (list shell) :=
  mapM parse_shell conf.

(** [sum(2*l+1 for n, l, occ in shells)]. *)
Definition nmaxocc_of (shells : list shell) : Z :=
  fold_left Z.add (map (fun '(n, l, occ) => 2 * l + 1) shells) 0.

(** The inner loop [for spin in (1, 2)] for one shell, with the running
    [occ] and the [break]. *)
Fixpoint spin_loop (n l : Z) (spins : list Z) (occ : Z) : list spin_shell :=
  match spins with
  | [] => []
  | spin :: spins' =>
      let spin_occ := Z.min occ (2 * l + 1) in
      let occ := occ - spin_occ in
      (n, l, spin, spin_occ) ::
      (if occ =? 0 then [] else spin_loop n l spins' occ)
  end.

Definition spin_split (sh : shell) : list spin_shell :=
  let '(n, l, occ) := sh in spin_loop n l [1; 2] occ.

Definition spin_shells_of (shells : list shell) : list spin_shell :=
  flat_map spin_split shells.

(** The tuple [(1, spin, 'atomic', n, l, m, 1, nmaxocc)]. *)
Definition directive (nmaxocc n l spin m : Z) : force_occ :=
  ForceOcc 1 spin "atomic" n l m 1 nmaxocc.

(** One round of the loop over [enumerate(spin_shells)]; the state is
    [(force_occs, unfilled)]. *)
Definition classify_step (nmaxocc : Z) (st : list force_occ * list nat)
  (x : nat * spin_shell) : list force_occ * list nat :=
  let '(force_occs, unfilled) := st in
  let '(i_shell, (n, l, spin, occ)) := x in
  if occ <? 2 * l + 1 then (force_occs, unfilled ++ [i_shell])
  else
    (force_occs ++ map (directive nmaxocc n l spin) (Py.range (- l) (l + 1)),
     unfilled).

Definition classify (nmaxocc : Z) (spin_shells : list spin_shell)
  : list force_occ * list nat :=
  fold_left (classify_step nmaxocc) (Py.enumerate spin_shells) ([], []).

(** The label of one combination: [','.join(map(str, ms))]. *)
Definition label_of (ms : list Z) : string := Py.join "," (map Py.str ms).

(** The body of [get_force_occs] once the shells are parsed.  The [assert]
    is taken as executed (the interpreter runs without [-O]). *)
Definition force_occs_of_shells (shells : list shell)
  : result (Py.dict (list force_occ)) :=
  let nmaxocc := nmaxocc_of shells in
  let spin_shells := spin_shells_of shells in
  let '(force_occs, unfilled) := classify nmaxocc spin_shells in
  if negb (Nat.leb (List.length unfilled) 1) then Err AssertionError
  else
    match unfilled with
    | [] => Ok [("-", force_occs)]
    | i :: _ =>
        '(n, l, spin, occ) <- Py.index spin_shells i ;;
        combos <- Py.combinations (Py.range (- l) (l + 1)) occ ;;
        Ok (fold_left
              (fun all_force_occs ms =>
                 Py.setitem all_force_occs (label_of ms)
                   (force_occs ++ map (directive nmaxocc n l spin) ms))
              combos [])
    end.

Definition get_force_occs (conf : list string)
  : result (Py.dict (list force_occ)) :=
  shells <- parse_conf conf ;;
  force_occs_of_shells shells.

(** ** Floating-point numbers

    The script computes with binary64 numbers it never inspects closely:
    it halves and quarters the lattice constant, reads numbers with
    [float(...)], tests one for zero and divides two of them.  The model
    takes these operations as an interface; [binary64] below is the
    instance used for concrete runs. *)

Class PyFloat (F : Type) : Type := {
  of_int : Z -> F;                 (* an integer literal used as a number *)
  neg : F -> F;                    (* [-x] *)
  quot : F -> F -> F;              (* [x/y] for a non-zero [y] *)
  float : string -> result F;      (* [float(s)], [ValueError] when malformed *)
  is_zero : F -> bool;             (* [x == 0], the negation of [bool(x)] *)
  nan : F                          (* [math.nan] *)
}.

(** [x/y] on Python floats: a zero divisor raises. *)
Definition truediv {F : Type} `{PyFloat F} (x y : F) : result F :=
  if is_zero y then Err ZeroDivisionError else Ok (quot x y).

(** [x or y] on floats: [x] when it is truthy, else [y]. *)
Definition float_or {F : Type} `{PyFloat F} (x y : F) : F :=
  if is_zero x then y else x.

(** ** [get_crystal] *)

Section Crystal.

Context {F : Type} `{PyFloat F}.

Definition vec : Type := F * F * F.

(** [Atom(symbol, position)] of [geomlib2]. *)
Record Atom : Type := MkAtom {
  atom_symbol : string;
  atom_xyz : vec
}.

(** [geomlib.Crystal(atoms, latt_vecs)]. *)
Record Crystal : Type := MkCrystal {
  crystal_atoms : list Atom;
  crystal_latt_vecs : list vec
}.

Definition half (a : F) : F := quot a (of_int 2).
Definition quarter (a : F) : F := quot a (of_int 4).
Definition neg_half (a : F) : F := quot (neg a) (of_int 2).
Definition origin : vec := (of_int 0, of_int 0, of_int 0).

(** The local [atoms] is bound by one of the branches or not at all; the
    [return] reads it and raises [UnboundLocalError] when it is unbound. *)
Definition get_crystal (group : string) (a : F) (species : list string)
  : result Crystal :=
  let latt_vecs :=
    if String.eqb group "A2" then
      [(neg_half a, half a, half a);
       (half a, neg_half a, half a);
       (half a, half a, neg_half a)]
    else
      [(of_int 0, half a, half a);
       (half a, of_int 0, half a);
       (half a, half a, of_int 0)] in
  atoms <-
    (if String.eqb group "A1" || String.eqb group "A2" then
       s0 <- Py.index species 0 ;;
       Ok (Some [MkAtom s0 origin])
     else if String.eqb group "A4" then
       s0 <- Py.index species 0 ;;
       s0' <- Py.index species 0 ;;
       Ok (Some [MkAtom s0 origin;
                 MkAtom s0' (quarter a, quarter a, quarter a)])
     else if String.eqb group "B1" then
       s0 <- Py.index species 0 ;;
       s1 <- Py.index species 1 ;;
       Ok (Some [MkAtom s0 origin;
                 MkAtom s1 (half a, half a, half a)])
     else if String.eqb group "B3" then
       s0 <- Py.index species 0 ;;
       s1 <- Py.index species 1 ;;
       Ok (Some [MkAtom s0 origin;
                 MkAtom s1 (quarter a, quarter a, quarter a)])
     else Ok None) ;;
  match atoms with
  | Some atoms => Ok (MkCrystal atoms latt_vecs)
  | None => Err UnboundLocalError
  end.

End Crystal.

Arguments Atom F : clear implicits.
Arguments Crystal F : clear implicits.

(** The prototypes [get_crystal] has a branch for. *)
Definition supported_groups : list string := ["A1"; "A2"; "A4"; "B1"; "B3"].

(** ** [get_energy] and [get_volumes]

    The open file [f] is the list of its remaining lines, each with its
    line terminator, as iterating over a text file yields them.  The
    [function_task] decorator belongs to the task engine and is left out:
    the functions are modelled as their bodies. *)

Definition newline : string := String (ascii_of_nat 10) "".

(** The line [get_energy] waits for. *)
Definition converged_line : string :=
  ("  Self-consistency cycle converged." ++ newline)%string.

(** [next(l for l in f if p(l))]: the first line satisfying [p] and the
    lines left in [f] after it; [StopIteration] at the end of the file. *)
Fixpoint next_where (p : string -> bool) (f : list string)
  : result (string * list string) :=
  match f with
  | [] => Err StopIteration
  | l :: f' => if p l then Ok (l, f') else next_where p f'
  end.

(** [not line.strip()]. *)
Definition is_blank (line : string) : bool :=
  match Py.strip (list_ascii_of_string line) with
  | [] => true
  | _ => false
  end.

Section Scanners.

Context {F : Type} `{PyFloat F}.

Definition get_energy (f : list string) : result F :=
  '(_, f) <- next_where (fun l_ => String.eqb l_ converged_line) f ;;
  '(l, _) <- next_where (Py.contains "Total energy uncorrected") f ;;
  tok <- Py.index (Py.split l) 5 ;;
  float tok.

(** The loop [for line in f] of [get_volumes]; [free] is [None] while the
    local of that name is unbound. *)
Fixpoint volumes_loop (f : list string) (free : option F) (ratios : list F)
  : result (list F) :=
  match f with
  | [] => Ok ratios
  | line :: f' =>
      if is_blank line then Ok ratios
      else if Py.contains "Free atom volume" line then
        tok <- Py.last (Py.split line) ;;
        x <- float tok ;;
        volumes_loop f' (Some (float_or x nan)) ratios
      else if Py.contains "Hirshfeld volume" line then
        tok <- Py.last (Py.split line) ;;
        hirsh <- float tok ;;
        match free with
        | None => Err UnboundLocalError
        | Some free_v =>
            r <- truediv hirsh free_v ;;
            volumes_loop f' free (ratios ++ [r])
        end
      else volumes_loop f' free ratios
  end.

Definition get_volumes (f : list string) : result (list F) :=
  '(_, f) <- next_where (Py.contains "Performing Hirshfeld analysis") f ;;
  volumes_loop f None [].

End Scanners.

(** ** The binary64 instance

    [float] is implemented for plain decimal literals only (an optional
    sign, digits, an optional fraction): the quotient of two exactly
    represented integers is the correctly rounded value of the literal as
    long as the digits stay below 2^53 and the power of ten below 10^22. *)

Module Binary64.

Definition of_Z (z : Z) : PrimFloat.float :=
  if z <? 0 then PrimFloat.opp (PrimFloat.of_uint63 (Uint63.of_Z (- z)))
  else PrimFloat.of_uint63 (Uint63.of_Z z).

(** Digits with at most one decimal point: the digits read as an integer
    and the number of digits after the point. *)
Fixpoint decimal (acc : Z) (frac : option nat) (seen : bool)
  (cs : list ascii) : option (Z * nat) :=
  match cs with
  | [] =>
      if seen then Some (acc, match frac with Some k => k | None => O end)
      else None
  | c :: cs' =>
      match Py.digit_val c with
      | Some d =>
          decimal (10 * acc + d) (option_map S frac) true cs'
      | None =>
          match frac with
          | None => if Ascii.eqb c "." then decimal acc (Some O) seen cs'
                    else None
          | Some _ => None
          end
      end
  end.

Definition parse (s : string) : result PrimFloat.float :=
  let '(sign, cs) :=
    match list_ascii_of_string s with
    | "-"%char :: cs => (true, cs)
    | "+"%char :: cs => (false, cs)
    | cs => (false, cs)
    end in
  match decimal 0 None false cs with
  | Some (digits, k) =>
      let x := PrimFloat.div (of_Z digits) (of_Z (10 ^ Z.of_nat k)) in
      Ok (if sign then PrimFloat.opp x else x)
  | None => Err ValueError
  end.

End Binary64.

#[export] Instance binary64 : PyFloat PrimFloat.float := {|
  of_int := Binary64.of_Z;
  neg := PrimFloat.opp;
  quot := PrimFloat.div;
  float := Binary64.parse;
  is_zero := fun x => PrimFloat.eqb x PrimFloat.zero;
  nan := PrimFloat.nan
|}.

(** ** [chunks] and the species of a solid *)

(** The loop of [chunks]: [it] is what the iterator has left.  Each round
    takes up to [n] items with [islice] and stops at the first empty
    chunk.  A round that yields a chunk consumes an item, so the loop makes
    at most one round more than [it] has items; [fuel] counts the rounds. *)
Fixpoint chunks_loop {A : Type} (fuel : nat) (n : nat) (it : list A)
  : list (list A) :=
  match fuel with
  | O => []
  | S fuel' =>
      match firstn n it with
      | [] => []
      | chunk => chunk :: chunks_loop fuel' n (skipn n it)
      end
  end.

(** [list(chunks(iterable, n))]: [islice] refuses a negative [n] with
    [ValueError]. *)
Definition chunks {A : Type} (iterable : list A) (n : Z)
  : result (list (list A)) :=
  if n <? 0 then Err ValueError
  else Ok (chunks_loop (S (List.length iterable)) (Z.to_nat n) iterable).

(** [c] matches [[A-Z]]. *)
Definition is_upper (c : ascii) : bool :=
  let k := nat_of_ascii c in ((65 <=? k) && (k <=? 90))%nat.

(** [re.split(r'([A-Z])', s)]: the text between the capitals, with each
    capital as an item of its own between its neighbours.  [cur] is the
    text read since the last capital. *)
Fixpoint re_split_capitals_from (cur : string) (s : string) : list string :=
  match s with
  | EmptyString => [cur]
  | String c s' =>
      if is_upper c then
        cur :: String c "" :: re_split_capitals_from "" s'
      else re_split_capitals_from (cur ++ String c "")%string s'
  end.

Definition re_split_capitals (s : string) : list string :=
  re_split_capitals_from "" s.

(** The species of a solid, as [get_solids] reads them off its label:
    [[''.join(c) for c in chunks(re.split(r'([A-Z])', label)[1:], 2)]]. *)
Definition label_atoms (label : string) : result (list string) :=
  cs <- chunks (tl (re_split_capitals label)) 2 ;;
  Ok (map (Py.join "") cs).


(** ** The expansion of a configuration in [get_solids]

    [while conf[0] == '[': conf = atom_data.loc[conf[1:3]].configuration
    + ',' + conf[4:]].  The atom table is taken as the mapping [lookup]
    from a symbol to the configuration of its row; a symbol without a row
    is a [KeyError].  The loop need not end, so the model counts its
    rounds with [fuel]. *)

Inductive expansion : Type :=
| Expanded (conf : string)
| ExpandRaises (e : exn)
| ExpandKeyError (key : string)
| ExpandUnfinished.

Fixpoint expand_conf (fuel : nat) (lookup : string -> option string)
  (conf : string) : expansion :=
  match fuel with
  | O => ExpandUnfinished
  | S fuel' =>
      match conf with
      | EmptyString => ExpandRaises IndexError
      | String c _ =>
          if Ascii.eqb c "[" then
            match lookup (String.substring 1 2 conf) with
            | None => ExpandKeyError (String.substring 1 2 conf)
            | Some core =>
                expand_conf fuel' lookup
                  (core ++ "," ++ Py.slice_from 4 conf)%string
            end
          else Expanded conf
      end
  end.

(** [conf.split(',')], as [get_solids] applies it to the expanded
    configuration: the text between the commas; [cur] is the text read
    since the last comma. *)
Fixpoint split_comma_from (cur : string) (s : string) : list string :=
  match s with
  | EmptyString => [cur]
  | String c s' =>
      if Ascii.eqb c "," then cur :: split_comma_from "" s'
      else split_comma_from (cur ++ String c "")%string s'
  end.

Definition split_comma (s : string) : list string := split_comma_from "" s.

(** ** Vocabulary of the statements *)

(** A spin sub-shell is unfilled when it holds fewer electrons than its
    [2l+1] orbitals. *)
Definition is_unfilled (ss : spin_shell) : bool :=
  let '(n, l, spin, occ) := ss in occ <? 2 * l + 1.

(** The directives of one spin sub-shell: one for each [m] from [-l] to
    [l]. *)
Definition shell_directives (nmaxocc : Z) (ss : spin_shell) : list force_occ :=
  let '(n, l, spin, occ) := ss in
  map (fun m => ForceOcc 1 spin "atomic" n l m 1 nmaxocc)
      (Py.range (- l) (l + 1)).

(** The directives of the filled sub-shells, in the order of the
    sub-shells. *)
Definition filled_directives (nmaxocc : Z) (sss : list spin_shell)
  : list force_occ :=
  flat_map (shell_directives nmaxocc)
           (filter (fun ss => negb (is_unfilled ss)) sss).

(** The positions of the unfilled sub-shells, counted from [k]. *)
Fixpoint positions_from (k : nat) (sss : list spin_shell) : list nat :=
  match sss with
  | [] => []
  | ss :: sss' =>
      if is_unfilled ss then k :: positions_from (S k) sss'
      else positions_from (S k) sss'
  end.

(** Lexicographic order on lists of integers. *)
Inductive lex_lt : list Z -> list Z -> Prop :=
| lex_nil : forall y ys, lex_lt [] (y :: ys)
| lex_head : forall x xs y ys, x < y -> lex_lt (x :: xs) (y :: ys)
| lex_tail : forall x xs ys, lex_lt xs ys -> lex_lt (x :: xs) (x :: ys).

(** No character of the string is a comma. *)
Fixpoint no_comma (s : string) : Prop :=
  match s with
  | EmptyString => True
  | String c s' => c <> ","%char /\ no_comma s'
  end.

(** What the description of the energy scan says, for a given convergence
    line [marker]: without the line, or without a later line containing
    ["Total energy uncorrected"], the scan fails; otherwise it converts the
    sixth token of the first such later line. *)
Definition energy_scan_with {F : Type} `{PyFloat F} (marker : string)
  (scan : list string -> result F) : Prop :=
  (forall f, Forall (fun l => l <> marker) f -> exists e, scan f = Err e)
  /\ (forall pre post,
        Forall (fun l => l <> marker) pre ->
        Forall (fun l => Py.contains "Total energy uncorrected" l = false) post ->
        exists e, scan (pre ++ marker :: post) = Err e)
  /\ (forall pre mid e post tok,
        Forall (fun l => l <> marker) pre ->
        Forall (fun l => Py.contains "Total energy uncorrected" l = false) mid ->
        Py.contains "Total energy uncorrected" e = true ->
        nth_error (Py.split e) 5 = Some tok ->
        scan (pre ++ marker :: mid ++ e :: post) = float tok).

(** The rule "every line containing [Hirshfeld volume] appends a ratio",
    read on a section that follows the marker line and has no blank line:
    the result has one ratio for each such line. *)
Definition ratio_per_hirshfeld_line {F : Type}
  (scan : list string -> result (list F)) : Prop :=
  forall m sect rs,
    Py.contains "Performing Hirshfeld analysis" m = true ->
    Forall (fun l => is_blank l = false) sect ->
    scan (m :: sect) = Ok rs ->
    List.length rs
    = List.length (filter (Py.contains "Hirshfeld volume") sect).

(** A line of the section that appends a ratio: it contains
    ["Hirshfeld volume"] and not ["Free atom volume"]. *)
Definition appends_ratio (line : string) : bool :=
  Py.contains "Hirshfeld volume" line &&
  negb (Py.contains "Free atom volume" line).

(** Adding the line terminator to the lines of an example. *)
Definition with_newlines (lines : list string) : list string :=
  map (fun l => (l ++ newline)%string) lines.

(** The lines of [f] before its first blank line. *)
Fixpoint section_of (f : list string) : list string :=
  match f with
  | [] => []
  | line :: f' => if is_blank line then [] else line :: section_of f'
  end.

(** The binomial coefficient, by Pascal's rule. *)
Fixpoint choose (n k : nat) : nat :=
  match k, n with
  | O, _ => 1
  | S _, O => 0
  | S k', S n' => choose n' k' + choose n' k
  end.

(** The number of electrons a list of shells holds. *)
Definition electrons (shells : list shell) : Z :=
  fold_right (fun '(n, l, occ) acc => occ + acc) 0 shells.

(** The number of electrons a list of spin sub-shells holds. *)
Definition spin_electrons (sss : list spin_shell) : Z :=
  fold_right (fun '(n, l, spin, occ) acc => occ + acc) 0 sss.

(** A shell within its capacity of [2(2l+1)] electrons. *)
Definition within_capacity (sh : shell) : Prop :=
  let '(n, l, occ) := sh in 0 <= occ <= 2 * (2 * l + 1).




(** A line of the Hirshfeld section that neither ends it nor is read. *)
Definition quiet_line (line : string) : Prop :=
  is_blank line = false /\
  Py.contains "Free atom volume" line = false /\
  Py.contains "Hirshfeld volume" line = false.

(** The lines of one atom in the Hirshfeld section: a line with the free
    volume and, later, a line with the Hirshfeld volume, among lines that
    are not read. *)
Record atom_block : Type := AtomBlock {
  block_before : list string;
  block_free_line : string;
  block_between : list string;
  block_hirsh_line : string
}.

Definition block_lines (b : atom_block) : list string :=
  block_before b ++ block_free_line b :: block_between b
  ++ [block_hirsh_line b].

(** The block [b] reads as the free volume [fst v] and the Hirshfeld
    volume [snd v]. *)
Definition block_reads {F : Type} `{PyFloat F} (b : atom_block) (v : F * F)
  : Prop :=
  Forall quiet_line (block_before b) /\
  Forall quiet_line (block_between b) /\
  is_blank (block_free_line b) = false /\
  Py.contains "Free atom volume" (block_free_line b) = true /\
  (exists tok, Py.last (Py.split (block_free_line b)) = Ok tok /\
               float tok = Ok (fst v)) /\
  is_blank (block_hirsh_line b) = false /\
  Py.contains "Free atom volume" (block_hirsh_line b) = false /\
  Py.contains "Hirshfeld volume" (block_hirsh_line b) = true /\
  (exists tok, Py.last (Py.split (block_hirsh_line b)) = Ok tok /\
               float tok = Ok (snd v)).

(** A table of configurations whose references go down in [rank]: an
    entry is a configuration proper, or starts with a bracketed
    two-character symbol of a lower-ranked entry. *)
Definition grounded_table (lookup : string -> option string)
  (rank : string -> nat) : Prop :=
  forall sym core,
    lookup sym = Some core ->
    (exists c r, core = String c r /\ c <> "["%char) \/
    (exists b c r core',
        core = String "[" (String b (String c r)) /\
        lookup (String b (String c "")) = Some core' /\
        (rank (String b (String c "")) < rank sym)%nat).

(** The labels of a returned mapping, or the exception raised. *)
Definition result_labels (r : result (Py.dict (list force_occ)))
  : result (list string) :=
  match r with
  | Ok d => Ok (map fst d)
  | Err e => Err e
  end.

(** A table whose entries, when they start with a bracket, have the three
    characters after it that the loop skips: the symbol and the closing
    bracket. *)
Definition bracketed_entries_are_closed
  (lookup : string -> option string) : Prop :=
  forall sym core,
    lookup sym = Some core ->
    forall r, core = String "[" r -> (3 <= String.length r)%nat.

(** * Properties *)

#[local] Arguments Z.mul : simpl never.
#[local] Arguments Z.add : simpl never.
#[local] Arguments Z.sub : simpl never.
#[local] Arguments Z.opp : simpl never.
#[local] Arguments Z.min : simpl never.
#[local] Arguments Z.ltb : simpl never.
#[local] Arguments Z.eqb : simpl never.
#[local] Arguments Z.to_nat : simpl never.

(** ** Concrete runs *)

Example int_of_padded_literal :
  (Py.int " 1_0 ", Py.int "-07", Py.int "1__0", Py.int "+")
  = (Ok 10, Ok (-7), Err ValueError, Err ValueError).
Proof. reflexivity. Qed.

Example str_of_integers :
  map Py.str [-12; 0; 305] = ["-12"; "0"; "305"].
Proof. reflexivity. Qed.

Example split_on_whitespace :
  Py.split "  | Total energy   :  -0.5 Ha " = ["|"; "Total"; "energy"; ":"; "-0.5"; "Ha"].
Proof. reflexivity. Qed.

Example combinations_of_three_by_two :
  Py.combinations (Py.range (-1) 2) 2 = Ok [[-1; 0]; [-1; 1]; [0; 1]].
Proof. reflexivity. Qed.

Example parse_conf_defaults_to_one :
  parse_conf ["1s2"; "2s"; "2p"] = Ok [(1, 0, 2); (2, 0, 1); (2, 1, 1)].
Proof. reflexivity. Qed.

Example parse_conf_errors :
  (parse_conf [""], parse_conf ["3"], parse_conf ["3x"], parse_conf ["ap1"])
  = (Err IndexError, Err IndexError, Err ValueError, Err ValueError).
Proof. reflexivity. Qed.

(** A half-filled [p] shell is a filled spin-up sub-shell and nothing
    else. *)
Example half_filled_p_shell :
  spin_shells_of [(2, 1, 3)] = [(2, 1, 1, 3)] /\
  map fst (match get_force_occs ["2p3"] with Ok d => d | Err _ => [] end)
  = ["-"].
Proof. split; reflexivity. Qed.

(** Two open shells trip the assertion. *)
Example two_open_shells :
  get_force_occs ["3d2"; "4s1"; "4p1"] = Err AssertionError.
Proof. reflexivity. Qed.

(** A negative count is accepted by [int] and rejected by
    [itertools.combinations]. *)
Example negative_count :
  parse_conf ["2p-1"] = Ok [(2, 1, -1)] /\
  get_force_occs ["2p-1"] = Err ValueError.
Proof. split; reflexivity. Qed.

Example rock_salt_needs_two_species :
  get_crystal "B1" (Binary64.of_Z 4) ["Na"] = Err IndexError.
Proof. reflexivity. Qed.

Example hirshfeld_before_free :
  get_volumes
    (with_newlines
       ["  Performing Hirshfeld analysis of fragment charges and moments.";
        "  |   Hirshfeld volume        :   90.5"])
  = @Err (list PrimFloat.float) UnboundLocalError.
Proof. reflexivity. Qed.

Example zero_free_volume_gives_nan :
  get_volumes
    (with_newlines
       ["  Performing Hirshfeld analysis of fragment charges and moments.";
        "  |   Free atom volume        :   0.0";
        "  |   Hirshfeld volume        :   90.5"])
  = Ok [PrimFloat.nan].
Proof. reflexivity. Qed.

(** ** The result monad *)

Lemma mapM_In {A B : Type} (f : A -> result B) (l : list A) (ys : list B) :
  mapM f l = Ok ys ->
  forall y, In y ys -> exists x, In x l /\ f x = Ok y.
Proof.
  revert ys; induction l as [|x l IH]; simpl; intros ys E y Hy.
  - inversion E; subst; contradiction.
  - destruct (f x) as [y0|] eqn:Ex; simpl in E; try discriminate.
    destruct (mapM f l) as [ys0|] eqn:El; simpl in E; try discriminate.
    inversion E; subst; clear E.
    destruct Hy as [->|Hy].
    + exists x; auto.
    + destruct (IH ys0 eq_refl y Hy) as (x' & Hin & Hx'); eauto.
Qed.

(** ** The classification loop *)

Lemma classify_fold (N : Z) (sss : list spin_shell) :
  forall k fo un,
    fold_left (classify_step N) (combine (seq k (List.length sss)) sss) (fo, un)
    = (fo ++ filled_directives N sss, un ++ positions_from k sss).
Proof.
  induction sss as [|[[[n l] spin] occ] sss IH]; intros k fo un; simpl.
  - now rewrite !app_nil_r.
  - unfold filled_directives; simpl.
    destruct (occ <? 2 * l + 1) eqn:E; simpl; rewrite IH.
    + now rewrite <- app_assoc.
    + unfold filled_directives, directive; now rewrite <- !app_assoc.
Qed.

Lemma positions_filter (sss : list spin_shell) :
  forall k,
    Forall2 (fun p ss => (k <= p)%nat /\ nth_error sss (p - k) = Some ss)
            (positions_from k sss) (filter is_unfilled sss).
Proof.
  induction sss as [|ss sss IH]; intros k; simpl.
  - constructor.
  - assert (Hshift :
      Forall2 (fun p x => (k <= p)%nat /\ nth_error (ss :: sss) (p - k) = Some x)
              (positions_from (S k) sss) (filter is_unfilled sss)).
    { eapply Forall2_impl; [|apply (IH (S k))].
      intros p x [Hle Hn]; split; [lia|].
      replace (p - k)%nat with (S (p - S k)) by lia; exact Hn. }
    destruct (is_unfilled ss); [constructor|]; auto.
    split; [lia|]. now rewrite Nat.sub_diag.
Qed.

(** [get_force_occs] after parsing, by the number of unfilled sub-shells. *)
Lemma force_occs_of_shells_cases (shells : list shell) :
  force_occs_of_shells shells =
  let N := nmaxocc_of shells in
  let sss := spin_shells_of shells in
  match filter is_unfilled sss with
  | [] => Ok [("-", filled_directives N sss)]
  | [(n, l, spin, occ)] =>
      combos <- Py.combinations (Py.range (- l) (l + 1)) occ ;;
      Ok (fold_left
            (fun d ms =>
               Py.setitem d (label_of ms)
                 (filled_directives N sss ++ map (directive N n l spin) ms))
            combos [])
  | _ :: _ :: _ => Err AssertionError
  end.
Proof.
  unfold force_occs_of_shells, classify, Py.enumerate.
  rewrite classify_fold; simpl.
  pose proof (positions_filter (spin_shells_of shells) 0%nat) as HP.
  destruct (positions_from 0 (spin_shells_of shells)) as [|i [|j ps]];
    inversion HP as [|p x ps' xs [_ Hn] HP' E1 E2]; subst; simpl; auto.
  - inversion HP'; subst.
    unfold Py.index. rewrite Nat.sub_0_r in Hn. rewrite Hn.
    destruct x as [[[n l] spin] occ]; reflexivity.
  - inversion HP'; subst. destruct x as [[[n l] spin] occ]; reflexivity.
Qed.

(** ** Dictionaries *)

Lemma setitem_fresh {V : Type} (d : Py.dict V) (k : string) (v : V) :
  ~ In k (map fst d) -> Py.setitem d k v = d ++ [(k, v)].
Proof.
  induction d as [|[k' v'] d IH]; simpl; intros Hk; auto.
  destruct (String.eqb_spec k' k) as [->|_].
  - exfalso; auto.
  - now rewrite IH by tauto.
Qed.

Lemma setitem_In {V : Type} (d : Py.dict V) (k0 : string) (v0 : V) :
  forall k v, In (k, v) (Py.setitem d k0 v0) ->
              In (k, v) d \/ (k, v) = (k0, v0).
Proof.
  induction d as [|[k' v'] d IH]; simpl; intros k v Hin.
  - destruct Hin as [E|[]]; auto.
  - destruct (String.eqb_spec k' k0) as [->|_]; simpl in Hin.
    + destruct Hin as [E|Hin]; auto.
    + destruct Hin as [E|Hin]; auto.
      destruct (IH _ _ Hin); auto.
Qed.

Section FoldSetitem.

Context {A V : Type} (key : A -> string) (val : A -> V).

Let put (d : Py.dict V) (x : A) : Py.dict V :=
  Py.setitem d (key x) (val x).

(** Inserting entries with pairwise distinct new keys appends them. *)
Lemma fold_setitem_fresh (l : list A) :
  forall d, NoDup (map fst d ++ map key l) ->
            fold_left put l d = d ++ map (fun x => (key x, val x)) l.
Proof.
  induction l as [|x l IH]; intros d ND; simpl.
  - now rewrite app_nil_r.
  - simpl in ND. pose proof (NoDup_remove_2 _ _ _ ND) as Hx.
    unfold put at 2. rewrite setitem_fresh.
    + rewrite IH.
      * now rewrite <- app_assoc.
      * rewrite map_app, <- app_assoc. exact ND.
    + intro Hin; apply Hx, in_or_app; auto.
Qed.

(** Every entry of the dictionary was there before or was inserted. *)
Lemma fold_setitem_In (l : list A) :
  forall d k v,
    In (k, v) (fold_left put l d) ->
    In (k, v) d \/ exists x, In x l /\ k = key x /\ v = val x.
Proof.
  induction l as [|x l IH]; intros d k v Hin; simpl in *; auto.
  destruct (IH _ _ _ Hin) as [Hd|(y & Hy & Ek & Ev)].
  - destruct (setitem_In _ _ _ _ _ Hd) as [|E]; auto.
    inversion E; subst. right; exists x; auto.
  - right; exists y; auto.
Qed.

End FoldSetitem.

(** ** Labels *)

Lemma uint_no_comma (d : Decimal.uint) :
  no_comma (NilEmpty.string_of_uint d).
Proof.
  induction d; simpl; auto; split; auto; discriminate.
Qed.

Lemma nzuint_no_comma (d : Decimal.uint) :
  no_comma (NilZero.string_of_uint d).
Proof.
  destruct d; try apply uint_no_comma.
  simpl; split; [discriminate|exact I].
Qed.

Lemma str_no_comma (z : Z) : no_comma (Py.str z).
Proof.
  unfold Py.str. destruct (Z.to_int z) as [d|d]; simpl.
  - apply nzuint_no_comma.
  - split; [discriminate|apply nzuint_no_comma].
Qed.

Lemma str_nonempty (z : Z) : Py.str z <> "".
Proof.
  unfold Py.str. destruct (Z.to_int z) as [d|d]; simpl.
  - destruct d; discriminate.
  - discriminate.
Qed.

Lemma to_int_not_nil (z : Z) :
  Z.to_int z <> Decimal.Pos Decimal.Nil /\
  Z.to_int z <> Decimal.Neg Decimal.Nil.
Proof.
  destruct z; simpl; split; intro E; inversion E;
    eapply Unsigned.to_uint_nonnil; eauto.
Qed.

Lemma str_inj (a b : Z) : Py.str a = Py.str b -> a = b.
Proof.
  unfold Py.str; intro E.
  apply DecimalZ.to_int_inj.
  destruct (to_int_not_nil a) as [A1 A2], (to_int_not_nil b) as [B1 B2].
  pose proof (NilZero.isi _ A1 A2) as Ia.
  pose proof (NilZero.isi _ B1 B2) as Ib.
  rewrite E in Ia. congruence.
Qed.

Lemma append_empty_r (s : string) : (s ++ "")%string = s.
Proof. induction s; simpl; congruence. Qed.

Lemma join_cons (sep s : string) (l : list string) :
  Py.join sep (s :: l) =
  (s ++ match l with [] => "" | _ => sep ++ Py.join sep l end)%string.
Proof.
  destruct l; simpl; auto. now rewrite append_empty_r.
Qed.

(** A comma-free word followed by nothing or by a comma determines both
    the word and what follows. *)
Lemma word_then_comma (x y t1 t2 : string) :
  no_comma x -> no_comma y ->
  (t1 = "" \/ exists r, t1 = String "," r) ->
  (t2 = "" \/ exists r, t2 = String "," r) ->
  (x ++ t1)%string = (y ++ t2)%string -> x = y /\ t1 = t2.
Proof.
  revert y; induction x as [|c x IH]; intros [|c' y]; simpl;
    intros Hx Hy H1 H2 E.
  - auto.
  - exfalso. destruct H1 as [->|[r ->]]; [discriminate|].
    inversion E; subst. now destruct Hy.
  - exfalso. destruct H2 as [->|[r ->]]; [discriminate|].
    inversion E; subst. now destruct Hx.
  - inversion E; subst.
    destruct Hx as [_ Hx], Hy as [_ Hy].
    destruct (IH y Hx Hy H1 H2) as [-> ->]; auto.
Qed.

Lemma join_comma_inj (xs : list string) :
  forall ys,
    Forall (fun s => no_comma s /\ s <> "") xs ->
    Forall (fun s => no_comma s /\ s <> "") ys ->
    Py.join "," xs = Py.join "," ys -> xs = ys.
Proof.
  induction xs as [|x xs IH]; intros [|y ys] Hxs Hys E; auto.
  - exfalso. inversion Hys as [|? ? [_ Hne] _]; subst.
    rewrite join_cons in E. simpl in E.
    destruct y; [now apply Hne | discriminate].
  - exfalso. inversion Hxs as [|? ? [_ Hne] _]; subst.
    rewrite join_cons in E. simpl in E.
    destruct x; [now apply Hne | discriminate].
  - inversion Hxs as [|? ? [Hx _] Hxs']; subst.
    inversion Hys as [|? ? [Hy _] Hys']; subst.
    rewrite !join_cons in E.
    apply word_then_comma in E; auto.
    + destruct E as [-> E]. f_equal.
      destruct xs as [|x' xs], ys as [|y' ys]; auto; try discriminate.
      simpl in E. inversion E as [E']. apply IH; auto.
    + destruct xs; [left|right]; simpl; eauto.
    + destruct ys; [left|right]; simpl; eauto.
Qed.

Lemma label_of_inj (a b : list Z) : label_of a = label_of b -> a = b.
Proof.
  unfold label_of; intro E.
  apply join_comma_inj in E.
  - revert b E; induction a as [|x a IH]; intros [|y b] E; simpl in E;
      try discriminate; auto.
    inversion E as [[Exy Eab]]. f_equal; [apply str_inj|]; auto.
  - apply Forall_forall; intros s Hs. apply in_map_iff in Hs.
    destruct Hs as (z & <- & _).
    split; [apply str_no_comma | apply str_nonempty].
  - apply Forall_forall; intros s Hs. apply in_map_iff in Hs.
    destruct Hs as (z & <- & _).
    split; [apply str_no_comma | apply str_nonempty].
Qed.

(** ** Ranges and combinations *)

Lemma range_In (a b m : Z) : In m (Py.range a b) <-> a <= m < b.
Proof.
  unfold Py.range. rewrite in_map_iff. split.
  - intros (i & <- & Hi). apply in_seq in Hi. lia.
  - intros Hm. exists (Z.to_nat (m - a)). split; [lia|].
    apply in_seq. lia.
Qed.

Lemma range_sorted (a b : Z) : StronglySorted Z.lt (Py.range a b).
Proof.
  unfold Py.range. generalize (Z.to_nat (b - a)) as n, 0%nat as k.
  induction n as [|n IH]; intros k; simpl; constructor; auto.
  apply Forall_forall; intros m Hm. apply in_map_iff in Hm.
  destruct Hm as (i & <- & Hi). apply in_seq in Hi. lia.
Qed.

Lemma StronglySorted_app {A : Type} (R : A -> A -> Prop) (l1 l2 : list A) :
  StronglySorted R l1 -> StronglySorted R l2 ->
  (forall a b, In a l1 -> In b l2 -> R a b) ->
  StronglySorted R (l1 ++ l2).
Proof.
  induction 1 as [|a l1 S1 IH F1]; intros S2 H12; simpl; auto.
  constructor.
  - apply IH; auto. intros; apply H12; simpl; auto.
  - apply Forall_app; split; auto.
    apply Forall_forall; intros b Hb. apply H12; simpl; auto.
Qed.

Lemma StronglySorted_map {A B : Type} (R : A -> A -> Prop)
  (R' : B -> B -> Prop) (f : A -> B) (l : list A) :
  (forall a b, R a b -> R' (f a) (f b)) ->
  StronglySorted R l -> StronglySorted R' (map f l).
Proof.
  intros Hf; induction 1 as [|a l S IH F]; simpl; constructor; auto.
  apply Forall_forall; intros b Hb. apply in_map_iff in Hb.
  destruct Hb as (x & <- & Hx). apply Hf.
  rewrite Forall_forall in F; auto.
Qed.

Lemma StronglySorted_NoDup {A : Type} (R : A -> A -> Prop) (l : list A) :
  (forall x, ~ R x x) -> StronglySorted R l -> NoDup l.
Proof.
  intros Hirr; induction 1 as [|a l S IH F]; constructor; auto.
  intro Hin. rewrite Forall_forall in F. exact (Hirr a (F a Hin)).
Qed.

Lemma lex_lt_irrefl (xs : list Z) : ~ lex_lt xs xs.
Proof.
  induction xs as [|x xs IH]; intro H; inversion H; subst; auto; lia.
Qed.

(** The subsequences of a strictly increasing list are exactly the strictly
    increasing lists of the given length drawn from it. *)
Lemma subsequences_spec (l : list Z) :
  StronglySorted Z.lt l ->
  forall r c,
    In c (Py.subsequences l r) <->
    List.length c = r /\ StronglySorted Z.lt c /\ incl c l.
Proof.
  induction 1 as [|x l S IH F]; intros r c.
  - destruct r; simpl.
    + split.
      * intros [<-|[]]. repeat split; [constructor | apply incl_refl].
      * intros (Hlen & _ & _). destruct c; [auto | discriminate].
    + split; [contradiction|].
      intros (Hlen & _ & Hincl). destruct c as [|y c]; [discriminate|].
      exact (Hincl y (or_introl eq_refl)).
  - rewrite Forall_forall in F.
    destruct r as [|r]; simpl.
    + split.
      * intros [<-|[]]. repeat split; [constructor | intros ? []].
      * intros (Hlen & _ & _). destruct c; [auto | discriminate].
    + rewrite in_app_iff, in_map_iff. split.
      * intros [(c' & <- & Hc')|Hc].
        -- apply IH in Hc'. destruct Hc' as (Hlen & Hs & Hincl).
           repeat split.
           ++ simpl; congruence.
           ++ constructor; auto. apply Forall_forall; intros y Hy; auto.
           ++ intros y [<-|Hy]; simpl; auto.
        -- apply IH in Hc. destruct Hc as (Hlen & Hs & Hincl).
           repeat split; auto. intros y Hy; simpl; auto.
      * intros (Hlen & Hs & Hincl).
        destruct c as [|y c]; [discriminate|].
        inversion Hs as [|? ? Hs' Fy]; subst.
        rewrite Forall_forall in Fy.
        assert (Hy : x = y \/ In y l)
          by (apply (Hincl y); simpl; auto).
        assert (Htail : forall z, In z c -> x = z \/ In z l)
          by (intros z Hz; apply (Hincl z); simpl; auto).
        destruct Hy as [<-|Hy].
        -- left. exists c; split; auto. apply IH.
           repeat split; auto.
           intros z Hz. destruct (Htail z Hz) as [<-|]; auto.
           specialize (Fy _ Hz). lia.
        -- right. apply IH. repeat split; auto.
           intros z [<-|Hz]; auto.
           destruct (Htail z Hz) as [<-|]; auto.
           specialize (Fy _ Hz). specialize (F _ Hy). lia.
Qed.

(** They come in lexicographic order. *)
Lemma subsequences_lex_sorted (l : list Z) :
  StronglySorted Z.lt l ->
  forall r, StronglySorted lex_lt (Py.subsequences l r).
Proof.
  induction 1 as [|x l S IH F]; intros r.
  - destruct r; simpl; repeat constructor.
  - destruct r as [|r]; simpl; [repeat constructor|].
    apply StronglySorted_app; auto.
    + apply StronglySorted_map with (R := lex_lt); auto.
      intros; now apply lex_tail.
    + intros a b Ha Hb. apply in_map_iff in Ha.
      destruct Ha as (a' & <- & _).
      apply (subsequences_spec l S) in Hb.
      destruct Hb as (Hlen & _ & Hincl).
      destruct b as [|y b]; [discriminate|].
      apply lex_head. rewrite Forall_forall in F.
      apply F, Hincl; simpl; auto.
Qed.

Lemma combination_labels_NoDup (l : list Z) (r : nat) :
  StronglySorted Z.lt l -> NoDup (map label_of (Py.subsequences l r)).
Proof.
  intros S. apply Injective_map_NoDup.
  - intros a b; apply label_of_inj.
  - apply StronglySorted_NoDup with (R := lex_lt).
    + apply lex_lt_irrefl.
    + now apply subsequences_lex_sorted.
Qed.

(** ** Parsing and the spin split *)

Lemma get_force_occs_parsed (conf : list string) (shells : list shell) :
  parse_conf conf = Ok shells ->
  get_force_occs conf = force_occs_of_shells shells.
Proof.
  unfold get_force_occs; intros ->; reflexivity.
Qed.

Lemma orb_index_bounds (c : ascii) (l : Z) :
  orb_index c = Ok l -> 0 <= l <= 3.
Proof.
  unfold orb_index.
  destruct c as [[] [] [] [] [] [] [] []]; intro E; inversion E; lia.
Qed.

(** What a parsed token says about its shell: [l] is one of the four
    orbital indices, and the occupancy is the written count or, when no
    count is written, one. *)
Lemma parse_shell_inv (tok : string) (n l occ : Z) :
  parse_shell tok = Ok (n, l, occ) ->
  0 <= l <= 3 /\
  (Py.slice_from 2 tok = "" /\ occ = 1 \/
   Py.slice_from 2 tok <> "" /\ Py.int (Py.slice_from 2 tok) = Ok occ).
Proof.
  unfold parse_shell.
  generalize (Py.slice_from 2 tok); intro r.
  destruct (Py.getitem tok 0) as [c0|]; simpl; try discriminate.
  destruct (Py.int (String c0 "")) as [n0|]; simpl; try discriminate.
  destruct (Py.getitem tok 1) as [c1|]; simpl; try discriminate.
  destruct (orb_index c1) as [l0|] eqn:El; simpl; try discriminate.
  apply orb_index_bounds in El.
  destruct r as [|c rest].
  - simpl. intro E; inversion E; subst. split; [lia|]. left; split; reflexivity.
  - destruct (Py.int (String c rest)) as [o|] eqn:Ei; simpl; try discriminate.
    intro E; inversion E; subst. split; [lia|]. right; split; congruence.
Qed.

Lemma spin_split_In (n l occ : Z) (ss : spin_shell) :
  In ss (spin_split (n, l, occ)) ->
  let up := Z.min occ (2 * l + 1) in
  ss = (n, l, 1, up) \/
  occ - up <> 0 /\ ss = (n, l, 2, Z.min (occ - up) (2 * l + 1)).
Proof.
  unfold spin_split; simpl.
  destruct (Z.eqb_spec (occ - Z.min occ (2 * l + 1)) 0) as [E|E]; simpl.
  - intros [<-|[]]; auto.
  - destruct (_ =? 0); simpl; intros [<-|[<-|[]]]; auto.
Qed.

Lemma spin_shells_In (shells : list shell) (ss : spin_shell) :
  In ss (spin_shells_of shells) ->
  exists n l occ, In (n, l, occ) shells /\ In ss (spin_split (n, l, occ)).
Proof.
  unfold spin_shells_of. rewrite in_flat_map.
  intros ([[n l] occ] & Hin & Hss). eauto.
Qed.

Lemma filled_directives_all (N : Z) (sss : list spin_shell) :
  filter is_unfilled sss = [] ->
  filled_directives N sss = flat_map (shell_directives N) sss.
Proof.
  unfold filled_directives.
  induction sss as [|ss sss IH]; simpl; auto.
  destruct (is_unfilled ss); simpl; [discriminate|].
  intros E; now rewrite IH.
Qed.

Lemma filled_directives_In (N : Z) (sss : list spin_shell) (d : force_occ) :
  In d (filled_directives N sss) ->
  exists n l spin m,
    d = ForceOcc 1 spin "atomic" n l m 1 N /\ - l <= m <= l.
Proof.
  unfold filled_directives. rewrite in_flat_map.
  intros ([[[n l] spin] occ] & _ & Hd). unfold shell_directives in Hd.
  apply in_map_iff in Hd. destruct Hd as (m & <- & Hm).
  apply range_In in Hm. exists n, l, spin, m. split; auto. lia.
Qed.

(** ** The claims on [get_force_occs] *)

(** C3: the spin split of a shell [(n, l, occ)] gives spin-up
    [min(occ, 2l+1)] electrons and, only when electrons remain after that,
    gives spin-down the remainder capped at [2l+1]; electrons remain
    exactly when [occ > 2l+1], so the shell contributes one spin sub-shell
    when [occ <= 2l+1] and two otherwise. *)
Theorem spin_split_greedy (n l occ : Z) :
  let up := Z.min occ (2 * l + 1) in
  let rest := occ - up in
  spin_split (n, l, occ)
  = (n, l, 1, up) ::
    (if rest =? 0 then [] else [(n, l, 2, Z.min rest (2 * l + 1))])
  /\ (rest =? 0) = (occ <=? 2 * l + 1)
  /\ List.length (spin_split (n, l, occ))
     = if occ <=? 2 * l + 1 then 1%nat else 2%nat.
Proof.
  intros up rest.
  assert (E : (rest =? 0) = (occ <=? 2 * l + 1)).
  { subst up rest.
    destruct (Z.eqb_spec (occ - Z.min occ (2 * l + 1)) 0),
             (Z.leb_spec occ (2 * l + 1)); auto; lia. }
  assert (S : spin_split (n, l, occ)
              = (n, l, 1, up) ::
                (if rest =? 0 then []
                 else [(n, l, 2, Z.min rest (2 * l + 1))])).
  { unfold spin_split; simpl. fold up. fold rest.
    destruct (rest =? 0); auto.
    now destruct (rest - Z.min rest (2 * l + 1) =? 0). }
  repeat split; auto.
  rewrite S, <- E. now destruct (rest =? 0).
Qed.

(** C6: when the spin split leaves every sub-shell with exactly [2l+1]
    electrons, the result has the single entry ["-"], whose value lists the
    directives of all the sub-shells. *)
Theorem get_force_occs_all_filled (conf : list string) (shells : list shell) :
  parse_conf conf = Ok shells ->
  Forall (fun '(n, l, spin, occ) => occ = 2 * l + 1) (spin_shells_of shells) ->
  get_force_occs conf
  = Ok [("-", flat_map (shell_directives (nmaxocc_of shells))
                       (spin_shells_of shells))].
Proof.
  intros Hp Hall.
  rewrite (get_force_occs_parsed _ _ Hp), force_occs_of_shells_cases.
  assert (Hnone : filter is_unfilled (spin_shells_of shells) = []).
  { induction Hall as [|[[[n l] spin] occ] sss Hss _ IH]; simpl; auto.
    subst occ. now rewrite Z.ltb_irrefl. }
  cbv zeta. rewrite Hnone. now rewrite filled_directives_all.
Qed.

Lemma get_force_occs_all_filled_witness :
  parse_conf ["1s2"; "2s2"; "2p6"] = Ok [(1, 0, 2); (2, 0, 2); (2, 1, 6)] /\
  get_force_occs ["1s2"; "2s2"; "2p6"]
  = Ok [("-", flat_map (shell_directives 5)
                       [(1, 0, 1, 1); (1, 0, 2, 1); (2, 0, 1, 1);
                        (2, 0, 2, 1); (2, 1, 1, 3); (2, 1, 2, 3)])].
Proof.
  split; [reflexivity|].
  apply (get_force_occs_all_filled
           ["1s2"; "2s2"; "2p6"] [(1, 0, 2); (2, 0, 2); (2, 1, 6)]).
  - reflexivity.
  - repeat constructor.
Defined.

(** C1: when exactly one spin sub-shell [(n, l, spin, occ)] is unfilled
    (with [occ] a count, that is, not negative), the result has one entry
    for each combination of [occ] values of [m] from [-l] to [l]: the label
    is the chosen values joined by commas, the value is the directives of
    the filled sub-shells followed by one directive with occupancy 1 for
    each chosen [m].  The combinations are exactly the strictly increasing
    selections of [occ] values from [-l .. l], they come in lexicographic
    order, and their labels are pairwise distinct, so that no entry
    overwrites another. *)
Theorem get_force_occs_one_unfilled
  (conf : list string) (shells : list shell) (n l spin occ : Z) :
  parse_conf conf = Ok shells ->
  filter is_unfilled (spin_shells_of shells) = [(n, l, spin, occ)] ->
  0 <= occ ->
  let N := nmaxocc_of shells in
  let filled := filled_directives N (spin_shells_of shells) in
  let combos := Py.subsequences (Py.range (- l) (l + 1)) (Z.to_nat occ) in
  get_force_occs conf
  = Ok (map (fun ms =>
               (Py.join "," (map Py.str ms),
                filled ++ map (fun m => ForceOcc 1 spin "atomic" n l m 1 N) ms))
            combos)
  /\ (forall ms,
        In ms combos <->
        List.length ms = Z.to_nat occ /\ StronglySorted Z.lt ms /\
        Forall (fun m => - l <= m <= l) ms)
  /\ StronglySorted lex_lt combos
  /\ NoDup (map (fun ms => Py.join "," (map Py.str ms)) combos).
Proof.
  intros Hp Hone Hocc N filled combos.
  pose proof (range_sorted (- l) (l + 1)) as Hsorted.
  assert (Hnd : NoDup (map label_of combos))
    by (apply combination_labels_NoDup; exact Hsorted).
  split; [|split; [|split]].
  - rewrite (get_force_occs_parsed _ _ Hp), force_occs_of_shells_cases.
    cbv zeta. rewrite Hone. unfold Py.combinations.
    destruct (Z.ltb_spec occ 0) as [|_]; [lia|]. simpl bind.
    rewrite (fold_setitem_fresh label_of
               (fun ms => filled ++ map (directive N n l spin) ms)).
    + reflexivity.
    + exact Hnd.
  - intros ms. unfold combos. rewrite (subsequences_spec _ Hsorted). split.
    + intros (Hlen & Hs & Hincl). repeat split; auto.
      apply Forall_forall; intros m Hm.
      apply Hincl, range_In in Hm. lia.
    + intros (Hlen & Hs & Hall). repeat split; auto.
      intros m Hm. apply range_In.
      rewrite Forall_forall in Hall. specialize (Hall m Hm). lia.
  - now apply subsequences_lex_sorted.
  - exact Hnd.
Qed.

Lemma get_force_occs_one_unfilled_witness :
  parse_conf ["1s2"; "3d2"] = Ok [(1, 0, 2); (3, 2, 2)] /\
  filter is_unfilled (spin_shells_of [(1, 0, 2); (3, 2, 2)]) = [(3, 2, 1, 2)] /\
  List.map fst
    (match get_force_occs ["1s2"; "3d2"] with Ok d => d | Err _ => [] end)
  = ["-2,-1"; "-2,0"; "-2,1"; "-2,2"; "-1,0"; "-1,1"; "-1,2";
     "0,1"; "0,2"; "1,2"].
Proof.
  split; [reflexivity|]. split; [reflexivity|].
  rewrite (proj1 (get_force_occs_one_unfilled
                    ["1s2"; "3d2"] [(1, 0, 2); (3, 2, 2)] 3 2 1 2
                    eq_refl eq_refl ltac:(lia))).
  reflexivity.
Defined.

(** C2 as stated fails: for [["2p1"]] the assertion does not fire. *)
Lemma get_force_occs_2p1_no_assertion :
  get_force_occs ["2p1"] <> Err AssertionError.
Proof.
  vm_compute. discriminate.
Qed.

(** C2, amended: for [["2p1"]] the spin split produces the single
    sub-shell [(2, 1, 1, 1)]; the loop over the two spins is left once the
    electron is placed, so no spin-down sub-shell exists.  One sub-shell is
    unfilled, the assertion holds, and the result has the three entries
    ["-1"], ["0"] and ["1"], each with one directive. *)
Theorem get_force_occs_2p1 :
  parse_conf ["2p1"] = Ok [(2, 1, 1)]
  /\ spin_shells_of [(2, 1, 1)] = [(2, 1, 1, 1)]
  /\ get_force_occs ["2p1"]
     = Ok [("-1", [ForceOcc 1 1 "atomic" 2 1 (-1) 1 3]);
           ("0", [ForceOcc 1 1 "atomic" 2 1 0 1 3]);
           ("1", [ForceOcc 1 1 "atomic" 2 1 1 1 3])].
Proof.
  repeat split; reflexivity.
Qed.

(** C7: every directive of every entry of a returned mapping has its [m]
    between [-l] and [l], occupancy 1, and as last field [nmaxocc], the sum
    of [2l+1] over the parsed shells. *)
Theorem get_force_occs_directive_fields
  (conf : list string) (shells : list shell)
  (d : Py.dict (list force_occ)) (label : string) (ds : list force_occ)
  (dir : force_occ) :
  parse_conf conf = Ok shells ->
  get_force_occs conf = Ok d ->
  In (label, ds) d ->
  In dir ds ->
  - fo_l dir <= fo_m dir <= fo_l dir
  /\ fo_occ dir = 1
  /\ fo_denom dir = fold_left Z.add (map (fun '(n, l, occ) => 2 * l + 1) shells) 0.
Proof.
  intros Hp Hd Hentry Hdir.
  change (fold_left Z.add (map (fun '(n, l, occ) => 2 * l + 1) shells) 0)
    with (nmaxocc_of shells).
  rewrite (get_force_occs_parsed _ _ Hp), force_occs_of_shells_cases in Hd.
  cbv zeta in Hd.
  assert (Hfilled : forall x,
            In x (filled_directives (nmaxocc_of shells) (spin_shells_of shells)) ->
            - fo_l x <= fo_m x <= fo_l x /\ fo_occ x = 1 /\
            fo_denom x = nmaxocc_of shells).
  { intros x Hx. apply filled_directives_In in Hx.
    destruct Hx as (n & l & spin & m & -> & Hm); simpl; auto. }
  destruct (filter is_unfilled (spin_shells_of shells))
    as [|[[[n l] spin] occ] [|ss2 rest]]; try discriminate.
  - inversion Hd; subst. destruct Hentry as [E|[]].
    inversion E; subst. auto.
  - unfold Py.combinations in Hd.
    destruct (occ <? 0); simpl in Hd; [discriminate|].
    inversion Hd; subst; clear Hd.
    apply (fold_setitem_In label_of) in Hentry.
    destruct Hentry as [[]|(ms & Hms & _ & ->)].
    apply in_app_or in Hdir. destruct Hdir as [Hdir|Hdir]; auto.
    apply in_map_iff in Hdir. destruct Hdir as (m & <- & Hm).
    apply (subsequences_spec _ (range_sorted _ _)) in Hms.
    destruct Hms as (_ & _ & Hincl).
    apply Hincl, range_In in Hm. simpl. repeat split; auto; lia.
Qed.

Lemma get_force_occs_directive_fields_witness :
  let dir := ForceOcc 1 1 "atomic" 2 1 (-1) 1 4 in
  parse_conf ["2s2"; "2p2"] = Ok [(2, 0, 2); (2, 1, 2)] /\
  - fo_l dir <= fo_m dir <= fo_l dir /\ fo_occ dir = 1 /\ fo_denom dir = 4.
Proof.
  split; [reflexivity|].
  refine (get_force_occs_directive_fields
            ["2s2"; "2p2"] [(2, 0, 2); (2, 1, 2)]
            (match get_force_occs ["2s2"; "2p2"] with Ok d => d | Err _ => [] end)
            "-1,0"
            [ForceOcc 1 1 "atomic" 2 0 0 1 4; ForceOcc 1 2 "atomic" 2 0 0 1 4;
             ForceOcc 1 1 "atomic" 2 1 (-1) 1 4; ForceOcc 1 1 "atomic" 2 1 0 1 4]
            (ForceOcc 1 1 "atomic" 2 1 (-1) 1 4)
            eq_refl eq_refl _ _).
  - vm_compute. left. reflexivity.
  - simpl. right; right; left. reflexivity.
Defined.

(** C8: when the one unfilled spin sub-shell holds no electron, the result
    has the single entry with the empty label, whose value is the
    directives of the filled sub-shells.  Such a sub-shell is a spin-up
    one, and it comes from a token whose written count reads as 0; the
    spin-down remainder of the split is never zero. *)
Theorem get_force_occs_zero_occupancy
  (conf : list string) (shells : list shell) (n l spin : Z) :
  parse_conf conf = Ok shells ->
  filter is_unfilled (spin_shells_of shells) = [(n, l, spin, 0)] ->
  get_force_occs conf
  = Ok [("", filled_directives (nmaxocc_of shells) (spin_shells_of shells))]
  /\ spin = 1
  /\ exists tok,
       In tok conf /\ parse_shell tok = Ok (n, l, 0) /\
       Py.slice_from 2 tok <> "" /\ Py.int (Py.slice_from 2 tok) = Ok 0.
Proof.
  intros Hp Hone. split.
  - rewrite (get_force_occs_parsed _ _ Hp), force_occs_of_shells_cases.
    cbv zeta. rewrite Hone. unfold Py.combinations.
    change (0 <? 0) with false. change (Z.to_nat 0) with 0%nat.
    simpl bind.
    replace (Py.subsequences (Py.range (- l) (l + 1)) 0) with [@nil Z]
      by (destruct (Py.range (- l) (l + 1)); reflexivity).
    simpl. now rewrite app_nil_r.
  - assert (Hin : In (n, l, spin, 0) (spin_shells_of shells)).
    { apply (proj1 (filter_In is_unfilled _ _)).
      rewrite Hone; simpl; auto. }
    apply spin_shells_In in Hin.
    destruct Hin as (n' & l' & occ' & Hshell & Hss).
    destruct (mapM_In _ _ _ Hp _ Hshell) as (tok & Htok & Hparse).
    destruct (parse_shell_inv _ _ _ _ Hparse) as [Hl Hcount].
    apply spin_split_In in Hss. cbv zeta in Hss.
    assert (E : n = n' /\ l = l' /\ spin = 1 /\ occ' = 0).
    { destruct Hss as [E|[Hne E]]; inversion E; subst; repeat split; lia. }
    destruct E as (-> & -> & -> & ->).
    split; auto. exists tok. split; auto. split; auto.
    destruct Hcount as [[_ Habs]|]; [discriminate|auto].
Qed.

Lemma get_force_occs_zero_occupancy_witness :
  parse_conf ["1s2"; "2p0"] = Ok [(1, 0, 2); (2, 1, 0)] /\
  get_force_occs ["1s2"; "2p0"]
  = Ok [("", [ForceOcc 1 1 "atomic" 1 0 0 1 4;
              ForceOcc 1 2 "atomic" 1 0 0 1 4])].
Proof.
  split; [reflexivity|].
  exact (proj1 (get_force_occs_zero_occupancy
                  ["1s2"; "2p0"] [(1, 0, 2); (2, 1, 0)] 2 1 1
                  eq_refl eq_refl)).
Defined.

(** ** The claims on [get_crystal] *)

(** C4: the lattice vectors and the atoms of the five prototypes.  [A2]
    has the vectors [(-a/2, a/2, a/2)], [(a/2, -a/2, a/2)],
    [(a/2, a/2, -a/2)], the others [(0, a/2, a/2)], [(a/2, 0, a/2)],
    [(a/2, a/2, 0)].  [A1] and [A2] have one atom of the first species at
    the origin; [A4] has the first species at the origin and at
    [(a/4, a/4, a/4)]; [B1] has the first species at the origin and the
    second at [(a/2, a/2, a/2)]; [B3] has the first at the origin and the
    second at [(a/4, a/4, a/4)].  This holds for every lattice constant and
    every species list with at least the one or two species read. *)
Theorem get_crystal_prototypes {F : Type} `{PyFloat F}
  (a : F) (s0 s1 : string) (more : list string) :
  let o := of_int 0 in
  let h := quot a (of_int 2) in
  let q := quot a (of_int 4) in
  let nh := quot (neg a) (of_int 2) in
  let fcc := [(o, h, h); (h, o, h); (h, h, o)] in
  let bcc := [(nh, h, h); (h, nh, h); (h, h, nh)] in
  get_crystal "A1" a (s0 :: more)
  = Ok (MkCrystal [MkAtom s0 (o, o, o)] fcc)
  /\ get_crystal "A2" a (s0 :: more)
     = Ok (MkCrystal [MkAtom s0 (o, o, o)] bcc)
  /\ get_crystal "A4" a (s0 :: more)
     = Ok (MkCrystal [MkAtom s0 (o, o, o); MkAtom s0 (q, q, q)] fcc)
  /\ get_crystal "B1" a (s0 :: s1 :: more)
     = Ok (MkCrystal [MkAtom s0 (o, o, o); MkAtom s1 (h, h, h)] fcc)
  /\ get_crystal "B3" a (s0 :: s1 :: more)
     = Ok (MkCrystal [MkAtom s0 (o, o, o); MkAtom s1 (q, q, q)] fcc).
Proof.
  repeat split; reflexivity.
Qed.

(** C5 as stated fails: for the prototype ["A3"] no error of the name
    [UnsupportedPrototype] is raised. *)
Lemma get_crystal_A3_no_dedicated_error :
  ~ exists e,
      get_crystal "A3" (Binary64.of_Z 4) ["Ti"] = Err e /\
      exn_name e = "UnsupportedPrototype".
Proof.
  intros (e & He & Hname). vm_compute in He.
  inversion He; subst. discriminate.
Qed.

(** C5, amended: for a prototype outside [A1], [A2], [A4], [B1], [B3] no
    branch binds [atoms], and the [return] that reads it raises
    [UnboundLocalError]; no crystal is returned. *)
Theorem get_crystal_unsupported {F : Type} `{PyFloat F}
  (group : string) (a : F) (species : list string) :
  ~ In group supported_groups ->
  get_crystal group a species = Err UnboundLocalError.
Proof.
  unfold supported_groups; simpl; intros Hout.
  unfold get_crystal.
  destruct (String.eqb_spec group "A1"); [exfalso; apply Hout; subst; auto 10|].
  destruct (String.eqb_spec group "A2"); [exfalso; apply Hout; subst; auto 10|].
  destruct (String.eqb_spec group "A4"); [exfalso; apply Hout; subst; auto 10|].
  destruct (String.eqb_spec group "B1"); [exfalso; apply Hout; subst; auto 10|].
  destruct (String.eqb_spec group "B3"); [exfalso; apply Hout; subst; auto 10|].
  reflexivity.
Qed.

Lemma get_crystal_unsupported_witness :
  ~ In "A3" supported_groups /\
  get_crystal "A3" (Binary64.of_Z 4) ["Ti"] = Err UnboundLocalError.
Proof.
  assert (Hout : ~ In "A3" supported_groups).
  { unfold supported_groups; simpl.
    intros [E|[E|[E|[E|[E|[]]]]]]; discriminate. }
  split; [exact Hout|].
  exact (get_crystal_unsupported "A3" (Binary64.of_Z 4) ["Ti"] Hout).
Defined.

(** ** Scanning a file *)

Lemma next_where_none (p : string -> bool) (f : list string) :
  Forall (fun l => p l = false) f -> next_where p f = Err StopIteration.
Proof.
  induction 1 as [|l f Hl _ IH]; simpl; auto. now rewrite Hl.
Qed.

Lemma next_where_first (p : string -> bool) (pre : list string)
  (x : string) (post : list string) :
  Forall (fun l => p l = false) pre -> p x = true ->
  next_where p (pre ++ x :: post) = Ok (x, post).
Proof.
  induction 1 as [|l pre Hl _ IH]; simpl; intros Hx.
  - now rewrite Hx.
  - rewrite Hl. auto.
Qed.

Lemma differs_eqb (marker : string) (f : list string) :
  Forall (fun l => l <> marker) f ->
  Forall (fun l => String.eqb l marker = false) f.
Proof.
  apply Forall_impl. intros l Hl. now apply String.eqb_neq.
Qed.

Section ScannerFacts.

Context {F : Type} `{PyFloat F}.

Lemma get_energy_no_convergence (f : list string) :
  Forall (fun l => l <> converged_line) f ->
  get_energy f = Err StopIteration.
Proof.
  intros Hf. unfold get_energy.
  now rewrite next_where_none by (apply differs_eqb; exact Hf).
Qed.

Lemma get_energy_no_energy_line (pre post : list string) :
  Forall (fun l => l <> converged_line) pre ->
  Forall (fun l => Py.contains "Total energy uncorrected" l = false) post ->
  get_energy (pre ++ converged_line :: post) = Err StopIteration.
Proof.
  intros Hpre Hpost. unfold get_energy.
  rewrite next_where_first;
    [|apply differs_eqb; exact Hpre|apply String.eqb_refl].
  simpl. now rewrite next_where_none.
Qed.

Lemma get_energy_found (pre mid : list string) (e : string)
  (post : list string) (tok : string) :
  Forall (fun l => l <> converged_line) pre ->
  Forall (fun l => Py.contains "Total energy uncorrected" l = false) mid ->
  Py.contains "Total energy uncorrected" e = true ->
  nth_error (Py.split e) 5 = Some tok ->
  get_energy (pre ++ converged_line :: mid ++ e :: post) = float tok.
Proof.
  intros Hpre Hmid He Htok. unfold get_energy.
  rewrite next_where_first;
    [|apply differs_eqb; exact Hpre|apply String.eqb_refl].
  simpl. rewrite next_where_first by assumption.
  simpl. unfold Py.index. now rewrite Htok.
Qed.

(** With the line the code compares with, the description holds. *)
Lemma energy_scan_converged_line :
  energy_scan_with converged_line get_energy.
Proof.
  repeat split.
  - intros f Hf. eexists. now apply get_energy_no_convergence.
  - intros pre post Hpre Hpost. eexists.
    now apply get_energy_no_energy_line.
  - intros. now apply get_energy_found.
Qed.

Lemma volumes_loop_section (f : list string) :
  forall free rs,
    volumes_loop f free rs = volumes_loop (section_of f) free rs.
Proof.
  induction f as [|line f IH]; intros free rs; simpl; auto.
  destruct (is_blank line) eqn:Eb; simpl; auto.
  rewrite Eb.
  destruct (Py.contains "Free atom volume" line).
  - destruct (Py.last (Py.split line)); simpl; auto.
    destruct (float a); simpl; auto.
  - destruct (Py.contains "Hirshfeld volume" line); auto.
    destruct (Py.last (Py.split line)); simpl; auto.
    destruct (float a); simpl; auto.
    destruct free; auto.
    destruct (truediv a0 f0); simpl; auto.
Qed.

Lemma section_of_idem (f : list string) :
  section_of (section_of f) = section_of f.
Proof.
  induction f as [|line f IH]; simpl; auto.
  destruct (is_blank line) eqn:Eb; simpl; auto.
  now rewrite Eb, IH.
Qed.

(** One ratio for each line of the section that appends one. *)
Lemma volumes_loop_count (f : list string) :
  forall free rs out,
    volumes_loop f free rs = Ok out ->
    List.length out
    = (List.length rs
       + List.length (filter appends_ratio (section_of f)))%nat.
Proof.
  unfold appends_ratio.
  induction f as [|line f IH]; intros free rs out; simpl.
  - intros E; inversion E; subst. lia.
  - destruct (is_blank line) eqn:Eb; simpl.
    + intros E; inversion E; subst. lia.
    + destruct (Py.contains "Free atom volume" line);
        [|destruct (Py.contains "Hirshfeld volume" line)]; simpl.
      * destruct (Py.last (Py.split line)); simpl; try discriminate.
        destruct (float a); simpl; try discriminate.
        rewrite andb_false_r. apply IH.
      * destruct (Py.last (Py.split line)); simpl; try discriminate.
        destruct (float a); simpl; try discriminate.
        destruct free; try discriminate.
        destruct (truediv a0 f0); simpl; try discriminate.
        intros E. apply IH in E. rewrite E, length_app. simpl. lia.
      * apply IH.
Qed.

End ScannerFacts.

(** ** The claims on the output scanners *)

(** C9 as stated fails: a line that equals the words
    ["Self-consistency cycle converged."], with or without its line
    terminator, is not the line the scan waits for. *)
Lemma get_energy_unindented_marker_missed :
  ~ energy_scan_with "Self-consistency cycle converged."
      (@get_energy _ binary64)
  /\ ~ energy_scan_with ("Self-consistency cycle converged." ++ newline)
         (@get_energy _ binary64).
Proof.
  pose (e := ("  | Total energy uncorrected      :   -0.5 Ha   -13.60535 eV"
              ++ newline)%string).
  split; intros (_ & _ & Hfound).
  - specialize (Hfound [] [] e [] "-0.5"
                  (Forall_nil _) (Forall_nil _) eq_refl eq_refl).
    vm_compute in Hfound. discriminate.
  - specialize (Hfound [] [] e [] "-0.5"
                  (Forall_nil _) (Forall_nil _) eq_refl eq_refl).
    vm_compute in Hfound. discriminate.
Qed.

(** C9, amended: [get_energy] scans the lines for one equal to
    [converged_line], the words ["Self-consistency cycle converged."]
    behind two spaces and followed by the line terminator; it then scans
    the lines after it for one containing ["Total energy uncorrected"] and
    returns the sixth whitespace-separated token of that line as a float.
    When no line equals [converged_line], or no later line contains
    ["Total energy uncorrected"], it fails with [StopIteration]. *)
Theorem get_energy_scan {F : Type} `{PyFloat F} :
  (forall f,
      Forall (fun l => l <> converged_line) f ->
      get_energy f = Err StopIteration)
  /\ (forall pre post,
        Forall (fun l => l <> converged_line) pre ->
        Forall (fun l => Py.contains "Total energy uncorrected" l = false) post ->
        get_energy (pre ++ converged_line :: post) = Err StopIteration)
  /\ (forall pre mid e post tok,
        Forall (fun l => l <> converged_line) pre ->
        Forall (fun l => Py.contains "Total energy uncorrected" l = false) mid ->
        Py.contains "Total energy uncorrected" e = true ->
        nth_error (Py.split e) 5 = Some tok ->
        get_energy (pre ++ converged_line :: mid ++ e :: post) = float tok).
Proof.
  split; [|split].
  - apply get_energy_no_convergence.
  - apply get_energy_no_energy_line.
  - apply get_energy_found.
Qed.

Lemma get_energy_scan_witness :
  get_energy
    (with_newlines
       ["  Begin self-consistency loop";
        "  Self-consistency cycle converged.";
        "  Energy and forces in a compact form:";
        "  | Total energy uncorrected      :   -0.5 Ha   -13.60535 eV";
        "  | Total energy corrected        :   -0.5 Ha   -13.60535 eV"])
  = float "-0.5".
Proof.
  refine (proj2 (proj2 (@get_energy_scan _ binary64))
            (with_newlines ["  Begin self-consistency loop"])
            (with_newlines ["  Energy and forces in a compact form:"])
            (("  | Total energy uncorrected      :   -0.5 Ha   -13.60535 eV"
              ++ newline)%string)
            (with_newlines
               ["  | Total energy corrected        :   -0.5 Ha   -13.60535 eV"])
            "-0.5" _ _ eq_refl eq_refl).
  - repeat constructor. discriminate.
  - repeat constructor.
Defined.

(** C10 as stated fails: a line containing both ["Free atom volume"] and
    ["Hirshfeld volume"] appends no ratio. *)
Lemma get_volumes_line_with_both_appends_nothing :
  ~ ratio_per_hirshfeld_line (@get_volumes _ binary64).
Proof.
  intros Hrule.
  specialize (Hrule
    ("  Performing Hirshfeld analysis of fragment charges" ++ newline)%string
    (with_newlines
       ["  | Free atom volume        :   100.0";
        "  | Hirshfeld volume / Free atom volume :   90.5"])
    [] eq_refl).
  vm_compute in Hrule.
  assert (Habs : 0%nat = 1%nat); [|discriminate].
  apply Hrule; [|reflexivity].
  repeat constructor.
Qed.

(** C10, amended: [get_volumes] scans for the first line containing
    ["Performing Hirshfeld analysis"], failing with [StopIteration] when
    there is none, and then handles the lines after it up to the first
    blank line or the end.  A line containing ["Free atom volume"] records
    its last token as [free], or not-a-number when that number is zero.  A
    line containing ["Hirshfeld volume"] and not ["Free atom volume"]
    appends the quotient of its last token and [free]; when no [free] was
    recorded yet the call fails with [UnboundLocalError].  Other lines
    change nothing.  A call that returns has one ratio for each line of the
    section that contains ["Hirshfeld volume"] and not
    ["Free atom volume"]. *)
Theorem get_volumes_scan {F : Type} `{PyFloat F} :
  (forall f,
      Forall (fun l => Py.contains "Performing Hirshfeld analysis" l = false) f ->
      get_volumes f = Err StopIteration)
  /\ (forall pre m f,
        Forall (fun l => Py.contains "Performing Hirshfeld analysis" l = false)
               pre ->
        Py.contains "Performing Hirshfeld analysis" m = true ->
        get_volumes (pre ++ m :: f) = volumes_loop (section_of f) None [])
  /\ (forall free rs, volumes_loop [] free rs = Ok rs)
  /\ (forall line f free rs tok x,
        is_blank line = false ->
        Py.contains "Free atom volume" line = true ->
        Py.last (Py.split line) = Ok tok ->
        float tok = Ok x ->
        volumes_loop (line :: f) free rs
        = volumes_loop f (Some (if is_zero x then nan else x)) rs)
  /\ (forall line f free rs tok hirsh,
        is_blank line = false ->
        Py.contains "Free atom volume" line = false ->
        Py.contains "Hirshfeld volume" line = true ->
        Py.last (Py.split line) = Ok tok ->
        float tok = Ok hirsh ->
        volumes_loop (line :: f) free rs
        = match free with
          | Some v =>
              r <- truediv hirsh v ;; volumes_loop f (Some v) (rs ++ [r])
          | None => Err UnboundLocalError
          end)
  /\ (forall line f free rs,
        is_blank line = false ->
        Py.contains "Free atom volume" line = false ->
        Py.contains "Hirshfeld volume" line = false ->
        volumes_loop (line :: f) free rs = volumes_loop f free rs)
  /\ (forall pre m f rs,
        Forall (fun l => Py.contains "Performing Hirshfeld analysis" l = false)
               pre ->
        Py.contains "Performing Hirshfeld analysis" m = true ->
        get_volumes (pre ++ m :: f) = Ok rs ->
        List.length rs
        = List.length (filter appends_ratio (section_of f))).
Proof.
  assert (Hframe : forall pre m f,
    Forall (fun l => Py.contains "Performing Hirshfeld analysis" l = false)
           pre ->
    Py.contains "Performing Hirshfeld analysis" m = true ->
    get_volumes (pre ++ m :: f) = volumes_loop f None []).
  { intros pre m f Hpre Hm. unfold get_volumes.
    now rewrite next_where_first by assumption. }
  split; [|split; [|split; [|split; [|split; [|split]]]]].
  - intros f Hf. unfold get_volumes. now rewrite next_where_none.
  - intros pre m f Hpre Hm.
    rewrite Hframe by assumption. apply volumes_loop_section.
  - reflexivity.
  - intros line f free rs tok x Hb Hfree Htok Hx. simpl.
    now rewrite Hb, Hfree, Htok; simpl; rewrite Hx.
  - intros line f free rs tok hirsh Hb Hfree Hhirsh Htok Hx. simpl.
    rewrite Hb, Hfree, Hhirsh, Htok; simpl; rewrite Hx; simpl.
    now destruct free.
  - intros line f free rs Hb Hfree Hhirsh. simpl.
    now rewrite Hb, Hfree, Hhirsh.
  - intros pre m f rs Hpre Hm E.
    rewrite Hframe in E by assumption.
    now apply volumes_loop_count in E.
Qed.

Lemma get_volumes_scan_witness :
  get_volumes
    (with_newlines
       ["  Evaluating non-empirical van der Waals correction";
        "  Performing Hirshfeld analysis of fragment charges and moments.";
        "  | Atom     1: Na";
        "  |   Free atom volume        :   100.0";
        "  |   Hirshfeld volume        :   90.5";
        "";
        "  |   Hirshfeld volume        :   1.0"])
  = match float "90.5", float "100.0" with
    | Ok hirsh, Ok free => Ok [quot hirsh free]
    | _, _ => Err ValueError
    end.
Proof.
  refine (eq_trans
            (proj1 (proj2 (@get_volumes_scan _ binary64))
               (with_newlines
                  ["  Evaluating non-empirical van der Waals correction"])
               ("  Performing Hirshfeld analysis of fragment charges and moments."
                ++ newline)%string
               (with_newlines
                  ["  | Atom     1: Na";
                   "  |   Free atom volume        :   100.0";
                   "  |   Hirshfeld volume        :   90.5";
                   "";
                   "  |   Hirshfeld volume        :   1.0"])
               _ eq_refl)
            _).
  - repeat constructor.
  - reflexivity.
Defined.

(** * The rest of the script *)

(** ** [chunks] *)

Example chunks_of_five_by_two :
  chunks [1; 2; 3; 4; 5] 2 = Ok [[1; 2]; [3; 4]; [5]].
Proof. reflexivity. Qed.

Example chunks_by_zero_and_less :
  chunks [1; 2; 3] 0 = Ok [] /\ chunks [1; 2; 3] (-1) = Err ValueError.
Proof. split; reflexivity. Qed.

Lemma firstn_nil_inv {A : Type} (n : nat) (l : list A) :
  (0 < n)%nat -> firstn n l = [] -> l = [].
Proof.
  destruct n, l; simpl; intros Hn E; auto; [lia|discriminate].
Qed.


Lemma chunks_loop_nil {A : Type} (fuel n : nat) :
  chunks_loop fuel n (@nil A) = [].
Proof.
  destruct fuel; simpl; auto. now rewrite firstn_nil.
Qed.

Lemma chunks_loop_sizes {A : Type} (n : nat) :
  (0 < n)%nat ->
  forall fuel (it : list A) i c,
    (List.length it < fuel)%nat ->
    nth_error (chunks_loop fuel n it) i = Some c ->
    (1 <= List.length c <= n)%nat /\
    (S i < List.length (chunks_loop fuel n it) -> List.length c = n)%nat.
Proof.
  intros Hn; induction fuel as [|fuel IH]; intros it i c Hlt Hc; [lia|].
  simpl in *. destruct (firstn n it) as [|x chunk] eqn:E.
  - destruct i; discriminate.
  - assert (Hit : it <> []) by (intros ->; now rewrite firstn_nil in E).
    assert (Hrest : (List.length (skipn n it) < fuel)%nat).
    { rewrite length_skipn.
      assert (1 <= List.length it)%nat
        by (destruct it; [congruence | simpl; lia]).
      lia. }
    destruct i as [|i]; simpl in *.
    + inversion Hc; subst c. rewrite <- E, length_firstn. split.
      * assert (1 <= List.length it)%nat
          by (destruct it; [congruence | simpl; lia]).
        lia.
      * intros Hmore.
        destruct (Nat.le_gt_cases (List.length it) n) as [Hle|Hgt]; [|lia].
        exfalso. rewrite skipn_all2 in Hmore by exact Hle.
        rewrite chunks_loop_nil in Hmore. simpl in Hmore. lia.
    + destruct (IH _ _ _ Hrest Hc) as [Hsize Hfull]. split; auto.
      intros Hmore. apply Hfull. lia.
Qed.

Lemma chunks_loop_length {A : Type} (n : nat) :
  (0 < n)%nat ->
  forall fuel (it : list A),
    (List.length it < fuel)%nat ->
    List.length (chunks_loop fuel n it) = ((List.length it + n - 1) / n)%nat.
Proof.
  intros Hn; induction fuel as [|fuel IH]; intros it Hlt; [lia|].
  simpl. destruct (firstn n it) as [|x chunk] eqn:E.
  - apply (firstn_nil_inv n) in E; auto. subst it. simpl.
    symmetry. apply Nat.div_small. lia.
  - assert (Hit : it <> []) by (intros ->; now rewrite firstn_nil in E).
    assert (Hpos : (1 <= List.length it)%nat)
      by (destruct it; [congruence|simpl; lia]).
    simpl. rewrite IH by (rewrite length_skipn; lia).
    rewrite length_skipn.
    destruct (Nat.le_gt_cases (List.length it) n) as [Hle|Hgt].
    + replace (List.length it - n)%nat with 0%nat by lia. simpl.
      rewrite (Nat.div_small (n - 1) n) by lia.
      apply (Nat.div_unique _ _ 1 (List.length it - 1)); lia.
    + replace (List.length it + n - 1)%nat
        with ((List.length it - n + n - 1) + 1 * n)%nat by lia.
      rewrite Nat.div_add by lia. lia.
Qed.



(** X2: for a positive [n], every chunk has between 1 and [n] items, every
    chunk but the last has exactly [n], and there are
    [ceil(len(l) / n)] chunks. *)
Theorem chunks_sizes {A : Type} (l : list A) (n : Z) (cs : list (list A)) :
  0 < n ->
  chunks l n = Ok cs ->
  (forall i c,
      nth_error cs i = Some c ->
      (1 <= List.length c <= Z.to_nat n)%nat /\
      (S i < List.length cs -> List.length c = Z.to_nat n)%nat)
  /\ List.length cs = ((List.length l + Z.to_nat n - 1) / Z.to_nat n)%nat.
Proof.
  intros Hn. unfold chunks.
  destruct (Z.ltb_spec n 0) as [|_]; [lia|].
  intros E; injection E as <-.
  assert (Hn' : (0 < Z.to_nat n)%nat) by lia. split.
  - intros i c Hc.
    exact (chunks_loop_sizes _ Hn' _ _ _ _ (Nat.lt_succ_diag_r _) Hc).
  - exact (chunks_loop_length _ Hn' _ l (Nat.lt_succ_diag_r _)).
Qed.

Lemma chunks_sizes_witness :
  chunks [1; 2; 3; 4; 5] 2 = Ok [[1; 2]; [3; 4]; [5]] /\
  List.length [[1; 2]; [3; 4]; [5]] = ((5 + 2 - 1) / 2)%nat.
Proof.
  split; [reflexivity|].
  exact (proj2 (chunks_sizes [1; 2; 3; 4; 5] 2 [[1; 2]; [3; 4]; [5]]
                  ltac:(lia) eq_refl)).
Defined.

(** ** The species of a solid *)

Example atoms_of_labels :
  (label_atoms "NaCl", label_atoms "C", label_atoms "MgO", label_atoms "")
  = (Ok ["Na"; "Cl"], Ok ["C"], Ok ["Mg"; "O"], Ok []).
Proof. reflexivity. Qed.


Lemma append_assoc (a b c : string) :
  ((a ++ b) ++ c)%string = (a ++ b ++ c)%string.
Proof. induction a; simpl; congruence. Qed.







(** ** Which calls of [get_crystal] return *)

Lemma get_crystal_ok_iff {F : Type} `{PyFloat F}
  (group : string) (a : F) (species : list string) :
  (exists c, get_crystal group a species = Ok c) <->
  (group = "A1" \/ group = "A2" \/ group = "A4") /\
    (1 <= List.length species)%nat
  \/ (group = "B1" \/ group = "B3") /\ (2 <= List.length species)%nat.
Proof.
  unfold get_crystal.
  destruct (String.eqb_spec group "A1") as [->|N1];
    [|destruct (String.eqb_spec group "A2") as [->|N2];
      [|destruct (String.eqb_spec group "A4") as [->|N4];
        [|destruct (String.eqb_spec group "B1") as [->|M1];
          [|destruct (String.eqb_spec group "B3") as [->|M3]]]]];
    simpl; destruct species as [|s0 [|s1 more]]; simpl;
    (split;
     [ intros [c Hc]; try discriminate;
       first [ left; split; [solve [auto 6]|simpl; lia]
             | right; split; [solve [auto 6]|simpl; lia] ]
     | intros [[Hg Hlen]|[Hg Hlen]];
       try (simpl in Hlen; lia);
       try (destruct Hg as [Hg|[Hg|Hg]]; congruence);
       try (destruct Hg as [Hg|Hg]; congruence);
       eauto ]).
Qed.

Lemma get_crystal_index_error_iff {F : Type} `{PyFloat F}
  (group : string) (a : F) (species : list string) :
  get_crystal group a species = Err IndexError <->
  (group = "A1" \/ group = "A2" \/ group = "A4") /\ species = []
  \/ (group = "B1" \/ group = "B3") /\ (List.length species < 2)%nat.
Proof.
  unfold get_crystal.
  destruct (String.eqb_spec group "A1") as [->|N1];
    [|destruct (String.eqb_spec group "A2") as [->|N2];
      [|destruct (String.eqb_spec group "A4") as [->|N4];
        [|destruct (String.eqb_spec group "B1") as [->|M1];
          [|destruct (String.eqb_spec group "B3") as [->|M3]]]]];
    simpl; destruct species as [|s0 [|s1 more]]; simpl;
    (split;
     [ intros Hc; try discriminate;
       first [ left; split; [solve [auto 6]|reflexivity]
             | right; split; [solve [auto 6]|simpl; lia] ]
     | intros [[Hg Hlen]|[Hg Hlen]];
       try (simpl in Hlen; lia);
       try discriminate;
       try (destruct Hg as [Hg|[Hg|Hg]]; congruence);
       try (destruct Hg as [Hg|Hg]; congruence);
       eauto ]).
Qed.

(** X4: [get_crystal] returns a crystal exactly when the prototype is one
    of [A1], [A2], [A4] and there is a species, or one of [B1], [B3] and
    there are two; it raises [IndexError] exactly when the prototype is one
    of the five and the species list is shorter than that. *)
Theorem get_crystal_outcomes {F : Type} `{PyFloat F}
  (group : string) (a : F) (species : list string) :
  ((exists c, get_crystal group a species = Ok c) <->
   (group = "A1" \/ group = "A2" \/ group = "A4") /\
     (1 <= List.length species)%nat
   \/ (group = "B1" \/ group = "B3") /\ (2 <= List.length species)%nat)
  /\ (get_crystal group a species = Err IndexError <->
      (group = "A1" \/ group = "A2" \/ group = "A4") /\ species = []
      \/ (group = "B1" \/ group = "B3") /\ (List.length species < 2)%nat).
Proof.
  split; [apply get_crystal_ok_iff | apply get_crystal_index_error_iff].
Qed.


(** ** More on [get_force_occs] *)

Example choose_of_five :
  map (choose 5) [0; 1; 2; 3; 4; 5; 6]%nat = [1; 5; 10; 10; 5; 1; 0]%nat.
Proof. reflexivity. Qed.

Lemma subsequences_length {A : Type} (l : list A) :
  forall r, List.length (Py.subsequences l r) = choose (List.length l) r.
Proof.
  induction l as [|x l IH]; intros [|r]; simpl; auto.
  now rewrite length_app, length_map, !IH.
Qed.

Lemma range_length (a b : Z) : List.length (Py.range a b) = Z.to_nat (b - a).
Proof.
  unfold Py.range. now rewrite length_map, length_seq.
Qed.

(** The result for one unfilled sub-shell with a count that is not
    negative. *)
Lemma force_occs_one_unfilled_eq (shells : list shell) (n l spin occ : Z) :
  filter is_unfilled (spin_shells_of shells) = [(n, l, spin, occ)] ->
  0 <= occ ->
  force_occs_of_shells shells
  = Ok (map (fun ms =>
               (label_of ms,
                filled_directives (nmaxocc_of shells) (spin_shells_of shells)
                ++ map (directive (nmaxocc_of shells) n l spin) ms))
            (Py.subsequences (Py.range (- l) (l + 1)) (Z.to_nat occ))).
Proof.
  intros Hone Hocc. rewrite force_occs_of_shells_cases.
  cbv zeta. rewrite Hone. unfold Py.combinations.
  destruct (Z.ltb_spec occ 0) as [|_]; [lia|]. simpl bind.
  rewrite (fold_setitem_fresh label_of
             (fun ms => filled_directives (nmaxocc_of shells)
                          (spin_shells_of shells)
                        ++ map (directive (nmaxocc_of shells) n l spin) ms)).
  - reflexivity.
  - apply combination_labels_NoDup, range_sorted.
Qed.



(** X7: with one unfilled spin sub-shell holding [occ] electrons in a
    shell of index [l], the mapping has [2l+1] choose [occ] entries. *)
Theorem get_force_occs_entry_count
  (conf : list string) (shells : list shell) (n l spin occ : Z) :
  parse_conf conf = Ok shells ->
  filter is_unfilled (spin_shells_of shells) = [(n, l, spin, occ)] ->
  0 <= occ ->
  exists d,
    get_force_occs conf = Ok d /\
    List.length d = choose (Z.to_nat (2 * l + 1)) (Z.to_nat occ).
Proof.
  intros Hp Hone Hocc.
  rewrite (get_force_occs_parsed _ _ Hp).
  rewrite (force_occs_one_unfilled_eq _ _ _ _ _ Hone Hocc).
  eexists; split; [reflexivity|].
  rewrite length_map, subsequences_length, range_length.
  f_equal. lia.
Qed.

Lemma get_force_occs_entry_count_witness :
  exists d,
    get_force_occs ["1s2"; "3d2"] = Ok d /\ List.length d = 10%nat.
Proof.
  exact (get_force_occs_entry_count ["1s2"; "3d2"] [(1, 0, 2); (3, 2, 2)]
           3 2 1 2 eq_refl eq_refl ltac:(lia)).
Defined.

Lemma spin_split_sum (n l occ : Z) :
  0 <= l ->
  spin_electrons (spin_split (n, l, occ)) = Z.min occ (2 * (2 * l + 1)).
Proof.
  intros Hl. unfold spin_split; simpl.
  destruct (Z.eqb_spec (occ - Z.min occ (2 * l + 1)) 0) as [E|E]; simpl.
  - lia.
  - destruct (_ =? 0); simpl; lia.
Qed.

(** X8: for an orbital index that is not negative, the spin sub-shells of
    a shell hold [min(occ, 2(2l+1))] electrons: all of them up to the
    capacity of the shell, and the excess is dropped without an error. *)
Theorem spin_split_electrons (n l occ : Z) :
  0 <= l ->
  spin_electrons (spin_split (n, l, occ)) = Z.min occ (2 * (2 * l + 1)).
Proof.
  apply spin_split_sum.
Qed.

Lemma spin_split_electrons_witness :
  spin_electrons (spin_split (2, 1, 9)) = 6.
Proof.
  exact (spin_split_electrons 2 1 9 ltac:(lia)).
Defined.

Lemma parse_conf_shells (conf : list string) (shells : list shell) :
  parse_conf conf = Ok shells ->
  forall n l occ, In (n, l, occ) shells -> 0 <= l <= 3.
Proof.
  intros Hp n l occ Hin.
  destruct (mapM_In _ _ _ Hp _ Hin) as (tok & _ & Htok).
  now apply parse_shell_inv in Htok.
Qed.

Lemma spin_electrons_app (a b : list spin_shell) :
  spin_electrons (a ++ b) = spin_electrons a + spin_electrons b.
Proof.
  induction a as [|[[[n l] spin] occ] a IH]; simpl; lia.
Qed.

Lemma spin_electrons_of_shells (shells : list shell) :
  (forall n l occ, In (n, l, occ) shells -> 0 <= l) ->
  Forall within_capacity shells ->
  spin_electrons (spin_shells_of shells) = electrons shells.
Proof.
  unfold spin_shells_of.
  induction shells as [|[[n l] occ] shells IH]; intros Hl Hcap; auto.
  inversion Hcap as [|? ? Hsh Hcap']; subst. simpl in Hsh.
  change (flat_map spin_split ((n, l, occ) :: shells))
    with (spin_split (n, l, occ) ++ flat_map spin_split shells).
  change (electrons ((n, l, occ) :: shells)) with (occ + electrons shells).
  rewrite spin_electrons_app, IH; auto.
  - rewrite spin_split_sum by (apply (Hl n l occ); simpl; auto). lia.
  - intros n' l' occ' Hin. apply (Hl n' l' occ'); simpl; auto.
Qed.

Lemma spin_shells_bound (shells : list shell) (n l spin occ : Z) :
  In (n, l, spin, occ) (spin_shells_of shells) ->
  occ <= 2 * l + 1 /\ (spin = 1 \/ spin = 2) /\
  exists occ0, In (n, l, occ0) shells.
Proof.
  intros Hin. apply spin_shells_In in Hin.
  destruct Hin as (n0 & l0 & occ0 & Hsh & Hss).
  apply spin_split_In in Hss. cbv zeta in Hss.
  destruct Hss as [E|[_ E]]; inversion E; subst;
    (split; [lia|split; [auto|eauto]]).
Qed.

Lemma filled_directives_length (N : Z) (sss : list spin_shell) :
  Forall (fun '(n, l, spin, occ) => occ <= 2 * l + 1 /\ 0 <= l) sss ->
  Z.of_nat (List.length (filled_directives N sss))
  + spin_electrons (filter is_unfilled sss)
  = spin_electrons sss.
Proof.
  unfold filled_directives.
  induction 1 as [|[[[n l] spin] occ] sss [Hle Hl] _ IH]; simpl; auto.
  destruct (Z.ltb_spec occ (2 * l + 1)) as [Hlt|Hge]; simpl.
  - lia.
  - rewrite length_app, length_map, range_length. lia.
Qed.

(** X9: when every shell is within its capacity, every entry of the
    returned mapping has as many directives as the configuration has
    electrons. *)
Theorem get_force_occs_places_all_electrons
  (conf : list string) (shells : list shell)
  (d : Py.dict (list force_occ)) (label : string) (ds : list force_occ) :
  parse_conf conf = Ok shells ->
  Forall within_capacity shells ->
  get_force_occs conf = Ok d ->
  In (label, ds) d ->
  Z.of_nat (List.length ds) = electrons shells.
Proof.
  intros Hp Hcap Hd Hentry.
  assert (Hl : forall n l occ, In (n, l, occ) shells -> 0 <= l)
    by (intros n l occ Hin; apply (parse_conf_shells _ _ Hp) in Hin; lia).
  rewrite <- (spin_electrons_of_shells shells Hl Hcap).
  assert (Hsss : Forall (fun '(n, l, spin, occ) => occ <= 2 * l + 1 /\ 0 <= l)
                        (spin_shells_of shells)).
  { apply Forall_forall. intros [[[n l] spin] occ] Hin.
    destruct (spin_shells_bound _ _ _ _ _ Hin) as (Hle & _ & occ0 & Hsh).
    split; auto. exact (Hl _ _ _ Hsh). }
  pose proof (filled_directives_length (nmaxocc_of shells) _ Hsss) as Hlen.
  rewrite (get_force_occs_parsed _ _ Hp), force_occs_of_shells_cases in Hd.
  cbv zeta in Hd.
  destruct (filter is_unfilled (spin_shells_of shells))
    as [|[[[n l] spin] occ] [|ss2 rest]]; try discriminate.
  - inversion Hd; subst. destruct Hentry as [E|[]].
    inversion E; subst. simpl in Hlen. lia.
  - unfold Py.combinations in Hd.
    destruct (Z.ltb_spec occ 0) as [|Hocc]; simpl in Hd; [discriminate|].
    inversion Hd; subst; clear Hd.
    apply (fold_setitem_In label_of) in Hentry.
    destruct Hentry as [[]|(ms & Hms & _ & ->)].
    apply (subsequences_spec _ (range_sorted _ _)) in Hms.
    destruct Hms as (Hms & _ & _).
    rewrite length_app, length_map, Hms. simpl in Hlen. lia.
Qed.

Lemma get_force_occs_places_all_electrons_witness :
  electrons [(1, 0, 2); (2, 0, 2); (2, 1, 4)] = 8 /\
  Z.of_nat
    (List.length
       (match get_force_occs ["1s2"; "2s2"; "2p4"] with
        | Ok ((_, ds) :: _) => ds
        | _ => []
        end))
  = 8.
Proof.
  split; [reflexivity|].
  refine (get_force_occs_places_all_electrons
            ["1s2"; "2s2"; "2p4"] [(1, 0, 2); (2, 0, 2); (2, 1, 4)]
            (match get_force_occs ["1s2"; "2s2"; "2p4"] with
             | Ok d => d
             | Err _ => []
             end)
            "-1" _ eq_refl _ eq_refl _).
  - repeat constructor; simpl; lia.
  - vm_compute. left. reflexivity.
Defined.

(** X10: every directive of a returned mapping is of kind 1 in the
    ['atomic'] frame, has spin 1 or 2, and carries the [n] and [l] of one
    of the parsed shells. *)
Theorem get_force_occs_directive_shell
  (conf : list string) (shells : list shell)
  (d : Py.dict (list force_occ)) (label : string) (ds : list force_occ)
  (dir : force_occ) :
  parse_conf conf = Ok shells ->
  get_force_occs conf = Ok d ->
  In (label, ds) d ->
  In dir ds ->
  fo_kind dir = 1 /\ fo_frame dir = "atomic"
  /\ (fo_spin dir = 1 \/ fo_spin dir = 2)
  /\ exists occ, In (fo_n dir, fo_l dir, occ) shells.
Proof.
  intros Hp Hd Hentry Hdir.
  rewrite (get_force_occs_parsed _ _ Hp), force_occs_of_shells_cases in Hd.
  cbv zeta in Hd.
  assert (Hfilled : forall x,
            In x (filled_directives (nmaxocc_of shells) (spin_shells_of shells)) ->
            fo_kind x = 1 /\ fo_frame x = "atomic"
            /\ (fo_spin x = 1 \/ fo_spin x = 2)
            /\ exists occ, In (fo_n x, fo_l x, occ) shells).
  { intros x Hx. unfold filled_directives in Hx. apply in_flat_map in Hx.
    destruct Hx as ([[[n l] spin] occ] & Hss & Hx).
    apply filter_In in Hss. destruct Hss as [Hss _].
    apply spin_shells_bound in Hss. destruct Hss as (_ & Hspin & Hsh).
    unfold shell_directives in Hx. apply in_map_iff in Hx.
    destruct Hx as (m & <- & _). simpl. auto. }
  destruct (filter is_unfilled (spin_shells_of shells))
    as [|[[[n l] spin] occ] [|ss2 rest]] eqn:Hu; try discriminate.
  - inversion Hd; subst. destruct Hentry as [E|[]].
    inversion E; subst. auto.
  - unfold Py.combinations in Hd.
    destruct (occ <? 0); simpl in Hd; [discriminate|].
    inversion Hd; subst; clear Hd.
    apply (fold_setitem_In label_of) in Hentry.
    destruct Hentry as [[]|(ms & _ & _ & ->)].
    apply in_app_or in Hdir. destruct Hdir as [Hdir|Hdir]; auto.
    apply in_map_iff in Hdir. destruct Hdir as (m & <- & _).
    assert (Hss : In (n, l, spin, occ) (spin_shells_of shells)).
    { apply (proj1 (filter_In is_unfilled _ _)). rewrite Hu; simpl; auto. }
    apply spin_shells_bound in Hss. destruct Hss as (_ & Hspin & Hsh).
    simpl. auto.
Qed.

Lemma get_force_occs_directive_shell_witness :
  let dir := ForceOcc 1 1 "atomic" 2 1 (-1) 1 4 in
  fo_kind dir = 1 /\ fo_frame dir = "atomic"
  /\ (fo_spin dir = 1 \/ fo_spin dir = 2)
  /\ exists occ, In (fo_n dir, fo_l dir, occ) [(2, 0, 2); (2, 1, 2)].
Proof.
  refine (get_force_occs_directive_shell
            ["2s2"; "2p2"] [(2, 0, 2); (2, 1, 2)]
            (match get_force_occs ["2s2"; "2p2"] with Ok d => d | Err _ => [] end)
            "-1,0"
            [ForceOcc 1 1 "atomic" 2 0 0 1 4; ForceOcc 1 2 "atomic" 2 0 0 1 4;
             ForceOcc 1 1 "atomic" 2 1 (-1) 1 4; ForceOcc 1 1 "atomic" 2 1 0 1 4]
            (ForceOcc 1 1 "atomic" 2 1 (-1) 1 4)
            eq_refl eq_refl _ _).
  - vm_compute. left. reflexivity.
  - simpl. right; right; left. reflexivity.
Defined.

(** ** The tokens [get_force_occs] accepts *)





(** ** More on the output scanners *)

(** X12: when the first line containing ["Total energy uncorrected"] after
    the convergence line has fewer than six tokens, [get_energy] raises
    [IndexError]; it does not go on to later lines. *)
Theorem get_energy_short_line {F : Type} `{PyFloat F}
  (pre mid : list string) (e : string) (post : list string) :
  Forall (fun l => l <> converged_line) pre ->
  Forall (fun l => Py.contains "Total energy uncorrected" l = false) mid ->
  Py.contains "Total energy uncorrected" e = true ->
  (List.length (Py.split e) < 6)%nat ->
  get_energy (pre ++ converged_line :: mid ++ e :: post) = Err IndexError.
Proof.
  intros Hpre Hmid He Hshort. unfold get_energy.
  rewrite next_where_first;
    [|apply differs_eqb; exact Hpre|apply String.eqb_refl].
  simpl. rewrite next_where_first by assumption.
  simpl. unfold Py.index.
  destruct (nth_error (Py.split e) 5) eqn:E; auto.
  assert (nth_error (Py.split e) 5 <> None) by congruence.
  apply nth_error_Some in H0. lia.
Qed.

Lemma get_energy_short_line_witness :
  get_energy
    (with_newlines
       ["  Self-consistency cycle converged.";
        "  | Total energy uncorrected      :";
        "  | Total energy uncorrected      :   -0.5 Ha   -13.60535 eV"])
  = @Err PrimFloat.float IndexError.
Proof.
  refine (@get_energy_short_line _ binary64 [] []
            ("  | Total energy uncorrected      :" ++ newline)%string
            (with_newlines
               ["  | Total energy uncorrected      :   -0.5 Ha   -13.60535 eV"])
            (Forall_nil _) (Forall_nil _) eq_refl _).
  vm_compute. lia.
Defined.

Lemma split_from_nil (cs : list ascii) :
  forall cur,
    Py.split_from cur cs = [] ->
    cur = [] /\ Forall (fun c => Py.is_space c = true) cs.
Proof.
  induction cs as [|c cs IH]; intros cur; simpl.
  - destruct cur; [auto|discriminate].
  - destruct (Py.is_space c) eqn:Ec.
    + destruct cur; [|discriminate].
      intros E. destruct (IH _ E) as [_ Hall]. auto.
    + intros E. destruct (IH _ E) as [Habs _]. discriminate.
Qed.

Lemma lstrip_spaces (cs : list ascii) :
  Forall (fun c => Py.is_space c = true) cs -> Py.lstrip cs = [].
Proof.
  induction 1 as [|c cs Hc _ IH]; simpl; auto. now rewrite Hc.
Qed.

(** A line that is not blank has a token. *)
Lemma split_not_blank (line : string) :
  is_blank line = false -> Py.split line <> [].
Proof.
  unfold is_blank, Py.split, Py.strip. intros Hb E.
  apply split_from_nil in E. destruct E as [_ Hall].
  rewrite (lstrip_spaces _ Hall) in Hb. discriminate.
Qed.

Lemma last_not_blank (line : string) :
  is_blank line = false -> exists tok, Py.last (Py.split line) = Ok tok.
Proof.
  intros Hb. apply split_not_blank in Hb. unfold Py.last.
  destruct (rev (Py.split line)) as [|tok r] eqn:E; eauto.
  exfalso. apply Hb. apply (f_equal (@rev string)) in E.
  now rewrite rev_involutive in E.
Qed.

Lemma next_where_error (p : string -> bool) (f : list string) (e : exn) :
  next_where p f = Err e -> e = StopIteration.
Proof.
  induction f as [|l f IH]; simpl.
  - congruence.
  - destruct (p l); [discriminate|auto].
Qed.

Section VolumeFacts.

Context {F : Type} `{PyFloat F}.

Hypothesis nan_is_not_zero : is_zero nan = false.

Lemma float_or_nan_not_zero (x : F) : is_zero (float_or x nan) = false.
Proof.
  unfold float_or. destruct (is_zero x) eqn:E; auto.
Qed.

Lemma volumes_loop_errors (float_raises_value_error :
    forall s e, float s = Err e -> e = ValueError) (f : list string) :
  forall free rs e,
    (forall v, free = Some v -> is_zero v = false) ->
    volumes_loop f free rs = Err e ->
    e = ValueError \/ e = UnboundLocalError.
Proof.
  induction f as [|line f IH]; intros free rs e Hfree; simpl.
  - discriminate.
  - destruct (is_blank line) eqn:Eb; [discriminate|].
    destruct (last_not_blank _ Eb) as [tok Htok]. rewrite Htok. simpl.
    destruct (Py.contains "Free atom volume" line);
      [|destruct (Py.contains "Hirshfeld volume" line)].
    + destruct (float tok) as [x|e'] eqn:Ex; simpl.
      * apply IH. intros v Hv. inversion Hv; subst.
        apply float_or_nan_not_zero.
      * intros E; inversion E; subst. left. eauto.
    + destruct (float tok) as [h|e'] eqn:Ex; simpl.
      * destruct free as [v|]; [|intros E; inversion E; auto].
        unfold truediv. rewrite (Hfree v eq_refl). simpl. now apply IH.
      * intros E; inversion E; subst. left. eauto.
    + now apply IH.
Qed.

Lemma volumes_loop_quiet (ls : list string) :
  Forall quiet_line ls ->
  forall f free rs,
    volumes_loop (ls ++ f) free rs = volumes_loop f free rs.
Proof.
  induction 1 as [|l ls (Hb & Hf & Hh) _ IH]; intros f free rs; simpl; auto.
  now rewrite Hb, Hf, Hh.
Qed.

Lemma volumes_loop_block (b : atom_block) (v : F * F) :
  block_reads b v ->
  forall f free rs,
    volumes_loop (block_lines b ++ f) free rs
    = volumes_loop f (Some (float_or (fst v) nan))
        (rs ++ [quot (snd v) (float_or (fst v) nan)]).
Proof.
  intros (Hq1 & Hq2 & Hfb & Hff & (tf & Htf & Hvf)
          & Hhb & Hhf & Hhh & (th & Hth & Hvh)) f free rs.
  unfold block_lines.
  rewrite <- app_assoc, volumes_loop_quiet by assumption.
  simpl. rewrite Hfb, Hff, Htf. simpl. rewrite Hvf. simpl.
  rewrite <- app_assoc, volumes_loop_quiet by assumption.
  simpl. rewrite Hhb, Hhf, Hhh, Hth. simpl. rewrite Hvh. simpl.
  unfold truediv. now rewrite float_or_nan_not_zero.
Qed.

Lemma volumes_loop_blocks (blocks : list atom_block) (values : list (F * F)) :
  Forall2 block_reads blocks values ->
  forall f free rs,
    exists free',
      volumes_loop (flat_map block_lines blocks ++ f) free rs
      = volumes_loop f free'
          (rs ++ map (fun v => quot (snd v) (float_or (fst v) nan)) values).
Proof.
  induction 1 as [|b v blocks values Hb _ IH]; intros f free rs; simpl.
  - exists free. now rewrite app_nil_r.
  - rewrite <- app_assoc, (volumes_loop_block b v Hb).
    destruct (IH f (Some (float_or (fst v) nan))
                (rs ++ [quot (snd v) (float_or (fst v) nan)]))
      as [free' E].
    exists free'. rewrite E, <- app_assoc. reflexivity.
Qed.

End VolumeFacts.

(** X13: with a [float] that raises nothing but [ValueError] and a
    not-a-number that is not zero, as for binary64, [get_volumes] raises
    nothing but [StopIteration], [ValueError] and [UnboundLocalError]: no
    division by zero, since a zero free volume is replaced by
    not-a-number, and no [IndexError], since a line that is not blank has
    a last token. *)
Theorem get_volumes_errors {F : Type} `{PyFloat F}
  (f : list string) (e : exn) :
  is_zero nan = false ->
  (forall s e', float s = Err e' -> e' = ValueError) ->
  get_volumes f = Err e ->
  e = StopIteration \/ e = ValueError \/ e = UnboundLocalError.
Proof.
  intros Hnan Hfloat. unfold get_volumes.
  destruct (next_where _ f) as [[m rest]|e'] eqn:En; simpl.
  - intros E. right.
    apply (volumes_loop_errors Hnan Hfloat) in E; auto.
    intros v Hv; discriminate.
  - intros E; inversion E; subst. left.
    now apply next_where_error in En.
Qed.

Lemma binary64_float_errors (s : string) (e : exn) :
  Binary64.parse s = Err e -> e = ValueError.
Proof.
  unfold Binary64.parse.
  destruct (match list_ascii_of_string s with
            | [] => (false, [])
            | c :: cs => _
            end) as [sign cs].
  destruct (Binary64.decimal 0 None false cs) as [[digits k]|];
    intros E; inversion E; auto.
Qed.

Lemma get_volumes_errors_witness :
  get_volumes
    (with_newlines
       ["  Performing Hirshfeld analysis of fragment charges and moments.";
        "  |   Hirshfeld volume        :   90.5"])
  = @Err (list PrimFloat.float) UnboundLocalError
  /\ (UnboundLocalError = StopIteration \/ UnboundLocalError = ValueError
      \/ UnboundLocalError = UnboundLocalError).
Proof.
  split; [reflexivity|].
  exact (@get_volumes_errors _ binary64
           (with_newlines
              ["  Performing Hirshfeld analysis of fragment charges and moments.";
               "  |   Hirshfeld volume        :   90.5"])
           UnboundLocalError eq_refl binary64_float_errors eq_refl).
Defined.

(** X14: for a section made of one block of lines for each atom, with a
    free-volume line and later a Hirshfeld-volume line among lines that
    are not read, followed by more such lines and then a blank line or
    the end of the file, [get_volumes] returns, in the order of the atoms,
    the Hirshfeld volume divided by the free volume, with not-a-number in
    place of a zero free volume. *)
Theorem get_volumes_blocks {F : Type} `{PyFloat F}
  (pre : list string) (m : string) (blocks : list atom_block)
  (values : list (F * F)) (trailing rest : list string) :
  is_zero nan = false ->
  Forall (fun l => Py.contains "Performing Hirshfeld analysis" l = false) pre ->
  Py.contains "Performing Hirshfeld analysis" m = true ->
  Forall2 block_reads blocks values ->
  Forall quiet_line trailing ->
  (rest = [] \/ exists b rest', rest = b :: rest' /\ is_blank b = true) ->
  get_volumes
    (pre ++ m :: flat_map block_lines blocks ++ trailing ++ rest)
  = Ok (map (fun v => quot (snd v)
                        (if is_zero (fst v) then nan else fst v))
            values).
Proof.
  intros Hnan Hpre Hm Hblocks Htrail Hrest. unfold get_volumes.
  rewrite next_where_first by assumption. simpl.
  destruct (volumes_loop_blocks Hnan blocks values Hblocks
              (trailing ++ rest) None []) as [free' E].
  rewrite E, volumes_loop_quiet by assumption.
  simpl app.
  destruct Hrest as [->|(b & rest' & -> & Hb)]; simpl; [|rewrite Hb];
    reflexivity.
Qed.

Lemma get_volumes_blocks_witness :
  get_volumes
    (with_newlines
       ["  Performing Hirshfeld analysis of fragment charges and moments.";
        "  | Atom     1: Na";
        "  |   Free atom volume        :   100.0";
        "  |   Hirshfeld volume        :   90.0";
        "  | Atom     2: Cl";
        "  |   Free atom volume        :   0.0";
        "  |   Hirshfeld volume        :   50.0";
        "";
        "  Evaluating non-empirical van der Waals correction"])
  = Ok [PrimFloat.div (Binary64.of_Z 90) (Binary64.of_Z 100);
        PrimFloat.div (Binary64.of_Z 50) PrimFloat.nan].
Proof.
  refine (@get_volumes_blocks _ binary64 []
            ("  Performing Hirshfeld analysis of fragment charges and moments."
             ++ newline)%string
            [AtomBlock
               (with_newlines ["  | Atom     1: Na"])
               ("  |   Free atom volume        :   100.0" ++ newline)%string
               []
               ("  |   Hirshfeld volume        :   90.0" ++ newline)%string;
             AtomBlock
               (with_newlines ["  | Atom     2: Cl"])
               ("  |   Free atom volume        :   0.0" ++ newline)%string
               []
               ("  |   Hirshfeld volume        :   50.0" ++ newline)%string]
            [(Binary64.of_Z 100, Binary64.of_Z 90);
             (Binary64.of_Z 0, Binary64.of_Z 50)]
            []
            (with_newlines
               [""; "  Evaluating non-empirical van der Waals correction"])
            eq_refl (Forall_nil _) eq_refl _ (Forall_nil _) _).
  - repeat (constructor;
            [unfold block_reads; simpl;
             repeat split;
             try reflexivity;
             try (repeat constructor; reflexivity);
             try (eexists; split; reflexivity)|]).
    constructor.
  - right. eexists; eexists. split; reflexivity.
Defined.

(** ** The expansion of a configuration *)

Example expand_two_levels :
  expand_conf 3
    (fun sym =>
       if String.eqb sym "He" then Some "1s2"
       else if String.eqb sym "Ne" then Some "[He]2s2,2p6"
       else None)
    "[Ne]3s1"
  = Expanded "1s2,2s2,2p6,3s1".
Proof. reflexivity. Qed.

Example expand_unknown_symbol :
  expand_conf 3 (fun _ => None) "[Ne]3s1" = ExpandKeyError "Ne".
Proof. reflexivity. Qed.

Example expand_empty_configuration :
  expand_conf 3 (fun _ => None) "" = ExpandRaises IndexError.
Proof. reflexivity. Qed.

Lemma expand_conf_head (fuel : nat) (lookup : string -> option string) :
  forall conf out,
    expand_conf fuel lookup conf = Expanded out ->
    exists c r, out = String c r /\ c <> "["%char.
Proof.
  induction fuel as [|fuel IH]; intros conf out; simpl; [discriminate|].
  destruct conf as [|c r]; [discriminate|].
  destruct (Ascii.eqb_spec c "[") as [->|Hc].
  - destruct (lookup _); [apply IH|discriminate].
  - intros E; inversion E; subst. eauto.
Qed.

Lemma expand_conf_more_fuel (fuel : nat) (lookup : string -> option string) :
  forall conf out fuel',
    expand_conf fuel lookup conf = Expanded out ->
    (fuel <= fuel')%nat ->
    expand_conf fuel' lookup conf = Expanded out.
Proof.
  induction fuel as [|fuel IH]; intros conf out fuel'; simpl; [discriminate|].
  intros E Hle. destruct fuel' as [|fuel']; [lia|]. simpl.
  destruct conf as [|c r]; [discriminate|].
  destruct (Ascii.eqb c "["); auto.
  destruct (lookup _); [|discriminate].
  apply IH; auto. lia.
Qed.

(** X15: a configuration that comes out of the expansion is not empty and
    does not start with a bracket, and it comes out the same however many
    more rounds the loop is allowed. *)
Theorem expand_conf_result (fuel : nat) (lookup : string -> option string)
  (conf out : string) :
  expand_conf fuel lookup conf = Expanded out ->
  (exists c r, out = String c r /\ c <> "["%char)
  /\ forall fuel', (fuel <= fuel')%nat ->
                   expand_conf fuel' lookup conf = Expanded out.
Proof.
  intros E. split.
  - exact (expand_conf_head _ _ _ _ E).
  - intros fuel' Hle. exact (expand_conf_more_fuel _ _ _ _ _ E Hle).
Qed.

Lemma expand_conf_result_witness :
  exists c r, "1s2,2s2" = String c r /\ c <> "["%char.
Proof.
  exact (proj1 (expand_conf_result 2
                  (fun sym => if String.eqb sym "He" then Some "1s2" else None)
                  "[He]2s2" "1s2,2s2" eq_refl)).
Defined.

Lemma substring_0_0 (s : string) : String.substring 0 0 s = "".
Proof. now destruct s. Qed.

Lemma expand_conf_step (fuel : nat) (lookup : string -> option string)
  (b c : ascii) (r core : string) :
  lookup (String b (String c "")) = Some core ->
  expand_conf (S fuel) lookup (String "[" (String b (String c r)))
  = expand_conf fuel lookup (core ++ "," ++ Py.slice_from 1 r)%string.
Proof.
  intros Hcore. simpl. rewrite substring_0_0, Hcore. reflexivity.
Qed.

Lemma expand_grounded (lookup : string -> option string)
  (rank : string -> nat) :
  grounded_table lookup rank ->
  forall k sym core tail,
    (rank sym <= k)%nat ->
    lookup sym = Some core ->
    exists out,
      forall fuel, (k + 1 <= fuel)%nat ->
                   expand_conf fuel lookup (core ++ "," ++ tail)%string
                   = Expanded out.
Proof.
  intros Hg. induction k as [|k IH]; intros sym core tail Hrank Hcore.
  - destruct (Hg _ _ Hcore)
      as [(c & r & -> & Hc)|(b & c & r & core' & -> & Hcore' & Hlt)];
      [|lia].
    exists (String c r ++ "," ++ tail)%string. intros fuel Hfuel.
    destruct fuel as [|fuel]; [lia|]. simpl.
    destruct (Ascii.eqb_spec c "["); [contradiction|reflexivity].
  - destruct (Hg _ _ Hcore)
      as [(c & r & -> & Hc)|(b & c & r & core' & -> & Hcore' & Hlt)].
    + exists (String c r ++ "," ++ tail)%string. intros fuel Hfuel.
      destruct fuel as [|fuel]; [lia|]. simpl.
      destruct (Ascii.eqb_spec c "["); [contradiction|reflexivity].
    + destruct (IH (String b (String c "")) core'
                  (Py.slice_from 1 (r ++ "," ++ tail)%string)) as [out Hout];
        [lia|exact Hcore'|].
      exists out. intros fuel Hfuel.
      destruct fuel as [|fuel]; [lia|].
      change (String "[" (String b (String c r)) ++ "," ++ tail)%string
        with (String "[" (String b (String c (r ++ "," ++ tail))))%string.
      rewrite (expand_conf_step _ _ _ _ _ _ Hcore').
      apply Hout. lia.
Qed.

(** X16: over a table whose references go down in rank, the expansion of
    a configuration that starts with the bracketed symbol of an entry ends:
    the loop is done after at most two rounds more than the rank of that
    entry. *)
Theorem expand_conf_grounded (lookup : string -> option string)
  (rank : string -> nat) (b c : ascii) (r core : string) :
  grounded_table lookup rank ->
  lookup (String b (String c "")) = Some core ->
  exists out,
    forall fuel,
      (rank (String b (String c "")) + 2 <= fuel)%nat ->
      expand_conf fuel lookup (String "[" (String b (String c r)))
      = Expanded out.
Proof.
  intros Hg Hcore.
  destruct (expand_grounded lookup rank Hg
              (rank (String b (String c ""))) _ core
              (Py.slice_from 1 r) (Nat.le_refl _) Hcore) as [out Hout].
  exists out. intros fuel Hfuel.
  destruct fuel as [|fuel]; [lia|].
  rewrite (expand_conf_step _ _ _ _ _ _ Hcore).
  apply Hout. lia.
Qed.

Lemma expand_conf_grounded_witness :
  exists out,
    forall fuel,
      (3 <= fuel)%nat ->
      expand_conf fuel
        (fun sym =>
           if String.eqb sym "He" then Some "1s2"
           else if String.eqb sym "Ne" then Some "[He]2s2,2p6"
           else None)
        "[Ne]3s1"
      = Expanded out.
Proof.
  refine (expand_conf_grounded
            (fun sym =>
               if String.eqb sym "He" then Some "1s2"
               else if String.eqb sym "Ne" then Some "[He]2s2,2p6"
               else None)
            (fun sym => if String.eqb sym "Ne" then 1%nat else 0%nat)
            "N" "e" "]3s1" "[He]2s2,2p6" _ eq_refl).
  intros sym core.
  destruct (String.eqb_spec sym "He") as [->|_].
  - intros E; inversion E; subst. left.
    exists "1"%char, "s2". split; [reflexivity|discriminate].
  - destruct (String.eqb_spec sym "Ne") as [->|_]; [|discriminate].
    intros E; inversion E; subst. right.
    exists "H"%char, "e"%char, "]2s2,2p6", "1s2".
    repeat split. simpl. lia.
Defined.

(** ** From the expanded configuration to the tokens *)

Example split_comma_of_texts :
  (split_comma "1s2,2s2,2p6", split_comma "", split_comma "1s2,")
  = (["1s2"; "2s2"; "2p6"], [""], ["1s2"; ""]).
Proof. reflexivity. Qed.

Lemma split_comma_from_cur (s : string) :
  forall cur,
    split_comma_from cur s
    = match split_comma_from "" s with
      | [] => []
      | x :: xs => (cur ++ x)%string :: xs
      end.
Proof.
  induction s as [|c s IH]; intros cur; simpl.
  - now rewrite append_empty_r.
  - destruct (Ascii.eqb c ",").
    + now rewrite append_empty_r.
    + rewrite (IH (cur ++ String c "")%string), (IH (String c "")).
      destruct (split_comma_from "" s); auto.
      now rewrite append_assoc.
Qed.

Lemma split_comma_app (a b : string) :
  split_comma (a ++ "," ++ b) = split_comma a ++ split_comma b.
Proof.
  unfold split_comma. generalize ""%string at 1 3 as cur.
  induction a as [|c a IH]; intros cur; simpl.
  - reflexivity.
  - destruct (Ascii.eqb c ","); simpl; [f_equal|]; apply IH.
Qed.

Lemma substring_1_2 (b c : ascii) (r : string) :
  String.substring 1 2 (String "[" (String b (String c r)))
  = String b (String c "").
Proof. simpl. now rewrite substring_0_0. Qed.

Lemma string_length_app (a b : string) :
  String.length (a ++ b) = (String.length a + String.length b)%nat.
Proof. induction a; simpl; auto. Qed.

(** Text after a configuration stays after its expansion. *)
Lemma expand_conf_app (lookup : string -> option string) :
  bracketed_entries_are_closed lookup ->
  forall fuel conf out t,
    (forall r, conf = String "[" r -> (3 <= String.length r)%nat) ->
    expand_conf fuel lookup conf = Expanded out ->
    expand_conf fuel lookup (conf ++ t) = Expanded (out ++ t).
Proof.
  intros Htable. induction fuel as [|fuel IH]; intros conf out t Hlen;
    [discriminate|].
  destruct conf as [|c0 r0]; [discriminate|].
  destruct (Ascii.eqb_spec c0 "[") as [->|Hc].
  - specialize (Hlen r0 eq_refl).
    destruct r0 as [|b [|c [|x r]]]; simpl in Hlen; try lia.
    change (String "[" (String b (String c (String x r))) ++ t)%string
      with (String "[" (String b (String c (String x r ++ t))))%string.
    destruct (lookup (String b (String c ""))) as [core|] eqn:Hcore.
    + rewrite !(expand_conf_step _ _ _ _ _ _ Hcore). simpl Py.slice_from.
      intros E.
      replace (core ++ "," ++ r ++ t)%string
        with ((core ++ "," ++ r) ++ t)%string
        by (now rewrite !append_assoc).
      apply IH; auto.
      intros r' Hr'.
      destruct core as [|k core']; simpl in Hr'.
      * inversion Hr'.
      * inversion Hr'; subst k r'.
        pose proof (Htable _ _ Hcore core' eq_refl) as Hcore'.
        rewrite string_length_app. simpl. lia.
    + simpl. rewrite Hcore. discriminate.
  - simpl. destruct (Ascii.eqb_spec c0 "["); [contradiction|].
    intros E; inversion E; subst. reflexivity.
Qed.

(** X17: over a table whose bracketed entries are closed, a configuration
    written as a bracketed symbol and the atom's own shells expands to the
    expansion of the symbol's configuration, a comma, and the own shells;
    the tokens handed to [get_force_occs] are then the tokens of the core
    followed by the atom's own. *)
Theorem expand_conf_core (lookup : string -> option string) (fuel : nat)
  (b c x : ascii) (own core out_core : string) :
  bracketed_entries_are_closed lookup ->
  lookup (String b (String c "")) = Some core ->
  expand_conf fuel lookup core = Expanded out_core ->
  expand_conf (S fuel) lookup (String "[" (String b (String c (String x own))))
  = Expanded (out_core ++ "," ++ own)
  /\ split_comma (out_core ++ "," ++ own)
     = split_comma out_core ++ split_comma own.
Proof.
  intros Htable Hcore Hexp. split; [|apply split_comma_app].
  rewrite (expand_conf_step _ _ _ _ _ _ Hcore). simpl Py.slice_from.
  apply expand_conf_app; auto.
  intros r Hr. exact (Htable _ _ Hcore r Hr).
Qed.

Lemma expand_conf_core_witness :
  expand_conf 3
    (fun sym =>
       if String.eqb sym "He" then Some "1s2"
       else if String.eqb sym "Ne" then Some "[He]2s2,2p6"
       else None)
    "[Ne]3s1"
  = Expanded "1s2,2s2,2p6,3s1"
  /\ split_comma "1s2,2s2,2p6,3s1" = ["1s2"; "2s2"; "2p6"; "3s1"].
Proof.
  refine (expand_conf_core
            (fun sym =>
               if String.eqb sym "He" then Some "1s2"
               else if String.eqb sym "Ne" then Some "[He]2s2,2p6"
               else None)
            2 "N" "e" "]" "3s1" "[He]2s2,2p6" "1s2,2s2,2p6" _ eq_refl eq_refl).
  intros sym core.
  destruct (String.eqb_spec sym "He") as [->|_].
  - intros E; inversion E; subst. intros r Hr; discriminate.
  - destruct (String.eqb_spec sym "Ne") as [->|_]; [|discriminate].
    intros E; inversion E; subst. intros r Hr. inversion Hr; subst.
    simpl. lia.
Defined.

(** ** Closed inner shells *)

Lemma spin_shells_of_app (a b : list shell) :
  spin_shells_of (a ++ b) = spin_shells_of a ++ spin_shells_of b.
Proof.
  unfold spin_shells_of. apply flat_map_app.
Qed.

Lemma mapM_app {A B : Type} (f : A -> result B) (l1 l2 : list A)
  (ys1 ys2 : list B) :
  mapM f l1 = Ok ys1 -> mapM f l2 = Ok ys2 ->
  mapM f (l1 ++ l2) = Ok (ys1 ++ ys2).
Proof.
  revert ys1; induction l1 as [|x l1 IH]; simpl; intros ys1 E1 E2.
  - inversion E1; subst. exact E2.
  - destruct (f x) as [y|]; simpl in *; try discriminate.
    destruct (mapM f l1) as [ys|]; simpl in *; try discriminate.
    inversion E1; subst. now rewrite (IH ys eq_refl E2).
Qed.

(** The labels are decided by the unfilled sub-shells. *)
Lemma force_occs_labels (shells : list shell) :
  result_labels (force_occs_of_shells shells)
  = match filter is_unfilled (spin_shells_of shells) with
    | [] => Ok ["-"]
    | [(n, l, spin, occ)] =>
        if occ <? 0 then Err ValueError
        else Ok (map label_of
                     (Py.subsequences (Py.range (- l) (l + 1)) (Z.to_nat occ)))
    | _ :: _ :: _ => Err AssertionError
    end.
Proof.
  destruct (filter is_unfilled (spin_shells_of shells))
    as [|[[[n l] spin] occ] [|ss2 rest]] eqn:Hu.
  - rewrite force_occs_of_shells_cases. cbv zeta. now rewrite Hu.
  - destruct (Z.ltb_spec occ 0) as [Hneg|Hpos].
    + rewrite force_occs_of_shells_cases. cbv zeta. rewrite Hu.
      unfold Py.combinations.
      destruct (Z.ltb_spec occ 0); [reflexivity|lia].
    + rewrite (force_occs_one_unfilled_eq _ _ _ _ _ Hu Hpos). simpl.
      now rewrite map_map.
  - rewrite force_occs_of_shells_cases. cbv zeta. now rewrite Hu.
Qed.

(** X18: shells in front that are all filled do not change the labels:
    when the tokens of a core parse to shells whose spin sub-shells are all
    filled, the configuration made of the core and further tokens gets the
    labels, or the exception, of the further tokens alone. *)
Theorem get_force_occs_closed_core
  (core own : list string) (core_shells own_shells : list shell) :
  parse_conf core = Ok core_shells ->
  parse_conf own = Ok own_shells ->
  filter is_unfilled (spin_shells_of core_shells) = [] ->
  result_labels (get_force_occs (core ++ own))
  = result_labels (get_force_occs own).
Proof.
  intros Hcore Hown Hclosed.
  assert (Hall : parse_conf (core ++ own) = Ok (core_shells ++ own_shells))
    by (apply mapM_app; assumption).
  rewrite (get_force_occs_parsed _ _ Hall), (get_force_occs_parsed _ _ Hown).
  rewrite !force_occs_labels.
  now rewrite spin_shells_of_app, filter_app, Hclosed.
Qed.

Lemma get_force_occs_closed_core_witness :
  result_labels (get_force_occs (["1s2"; "2s2"; "2p6"] ++ ["3s2"; "3p4"]))
  = result_labels (get_force_occs ["3s2"; "3p4"]).
Proof.
  exact (get_force_occs_closed_core
           ["1s2"; "2s2"; "2p6"] ["3s2"; "3p4"]
           [(1, 0, 2); (2, 0, 2); (2, 1, 6)] [(3, 0, 2); (3, 1, 4)]
           eq_refl eq_refl eq_refl).
Defined.
